(** * hex-map: the coordinate algebra, the grid and the terrain core

    A shallow embedding of the Go packages [pkg/hex], [internal/noise] and
    [pkg/terrain], and the properties of their specification checked
    against it.

    Conventions of the embedding.
    - Go's [int] is a 64-bit two's-complement integer: a [Z] in
      [[-2^63, 2^63)], every arithmetic result reduced by [wrap64].
      [/] truncates ([Z.quot]), [%] is its remainder ([Z.rem]), [&] is
      [Z.land].
    - A [float64] is read as the rational it denotes: arithmetic is exact
      and there is no rounding, infinity or NaN.  Every concrete heightmap
      evaluated below has small dyadic entries, on which binary64
      arithmetic is exact as well.
    - A panic is a constructor of the result, never an exception of the
      meta-language. *)

From Stdlib Require Import ZArith QArith Qround Qabs Lia List Bool.
From stdpp Require Import base strings gmap list.
Import ListNotations.

Local Open Scope Z_scope.

(** ** Go integers *)

Module GoInt.

Definition min_int : Z := - 2 ^ 63.
Definition max_int : Z := 2 ^ 63 - 1.

Definition in_int (z : Z) : Prop := min_int <= z <= max_int.

Definition wrap64 (z : Z) : Z := (z + 2 ^ 63) mod 2 ^ 64 - 2 ^ 63.

Definition add (a b : Z) : Z := wrap64 (a + b).
Definition sub (a b : Z) : Z := wrap64 (a - b).
Definition mul (a b : Z) : Z := wrap64 (a * b).
Definition neg (a : Z) : Z := wrap64 (- a).
(** [a / b] for [b <> 0]; the quotient overflows only at [min_int / -1]. *)
Definition quo (a b : Z) : Z := wrap64 (Z.quot a b).
(** [a % b] for [b <> 0]. *)
Definition rem (a b : Z) : Z := Z.rem a b.
Definition and (a b : Z) : Z := Z.land a b.

Lemma wrap64_id z : in_int z -> wrap64 z = z.
Proof.
  unfold in_int, min_int, max_int, wrap64. intros Hz.
  rewrite Z.mod_small by lia. lia.
Qed.

Lemma wrap64_range z : in_int (wrap64 z).
Proof.
  unfold in_int, min_int, max_int, wrap64.
  pose proof (Z.mod_pos_bound (z + 2 ^ 63) (2 ^ 64) ltac:(lia)). lia.
Qed.

Lemma wrap64_add_l a b : wrap64 (wrap64 a + b) = wrap64 (a + b).
Proof.
  unfold wrap64.
  replace ((a + 2 ^ 63) mod 2 ^ 64 - 2 ^ 63 + b + 2 ^ 63)
    with ((a + 2 ^ 63) mod 2 ^ 64 + b) by lia.
  rewrite Zplus_mod_idemp_l. f_equal. f_equal. lia.
Qed.

Lemma wrap64_sub_l a b : wrap64 (wrap64 a - b) = wrap64 (a - b).
Proof.
  replace (wrap64 a - b) with (wrap64 a + - b) by lia.
  replace (a - b) with (a + - b) by lia. apply wrap64_add_l.
Qed.

Lemma land_1_mod a : Z.land a 1 = a mod 2.
Proof. exact (Z.land_ones a 1 ltac:(lia)). Qed.

Lemma land_1_range a : 0 <= Z.land a 1 <= 1.
Proof.
  rewrite land_1_mod. pose proof (Z.mod_pos_bound a 2 ltac:(lia)). lia.
Qed.

End GoInt.

(** ** pkg/hex: axial coordinates *)

(** [AxialCoord{Q, R int}]; the fields are [cQ] and [cR] here, [Q] being
    the type of rationals. *)
Record AxialCoord : Type := NewAxialCoord { cQ : Z; cR : Z }.

#[global] Instance AxialCoord_eq_dec : EqDecision AxialCoord.
Proof. solve_decision. Defined.

#[global] Instance AxialCoord_countable : Countable AxialCoord.
Proof.
  refine (inj_countable' (fun c => (cQ c, cR c))
                         (fun p => NewAxialCoord (fst p) (snd p)) _).
  intros [q r]. reflexivity.
Defined.

(** A coordinate a Go program can hold: both fields are [int]s. *)
Definition coord_ok (c : AxialCoord) : Prop :=
  GoInt.in_int (cQ c) /\ GoInt.in_int (cR c).

(** [func (c AxialCoord) ToOffset() (col, row int)] *)
Definition ToOffset (c : AxialCoord) : Z * Z :=
  let col := cQ c in
  let row := GoInt.add (cR c)
               (GoInt.quo (GoInt.add (cQ c) (GoInt.and (cQ c) 1)) 2) in
  (col, row).

(** [func OffsetToAxial(col, row int) AxialCoord] *)
Definition OffsetToAxial (col row : Z) : AxialCoord :=
  let q := col in
  let r := GoInt.sub row
             (GoInt.quo (GoInt.add col (GoInt.and col 1)) 2) in
  NewAxialCoord q r.

Example ToOffset_test_table :
  map ToOffset [NewAxialCoord 0 0; NewAxialCoord 1 0; NewAxialCoord 0 1;
                NewAxialCoord 1 1; NewAxialCoord (-1) 1; NewAxialCoord 2 (-1)]
  = [(0, 0); (1, 1); (0, 1); (1, 2); (-1, 1); (2, 0)].
Proof. reflexivity. Qed.

(** ** Properties: the offset round trip *)

Section RoundTrip.

Import GoInt.

Lemma add_sub_cancel r x : in_int r -> sub (add r x) x = r.
Proof.
  intros Hr. unfold sub, add. rewrite wrap64_sub_l.
  replace (r + x - x) with r by lia. now apply wrap64_id.
Qed.

Lemma sub_add_cancel r x : in_int r -> add (sub r x) x = r.
Proof.
  intros Hr. unfold sub, add. rewrite wrap64_add_l.
  replace (r - x + x) with r by lia. now apply wrap64_id.
Qed.

(** C6. For all Go integers [q], [r]: [OffsetToAxial (ToOffset (q, r))] is
    [(q, r)], and for all Go integers [col], [row]:
    [ToOffset (OffsetToAxial col row)] is [(col, row)].  The shift
    [(q + (q & 1)) / 2] may wrap around at [q = max_int]; it is added and
    subtracted modulo [2^64], so the identity holds all the same. *)
Theorem offset_round_trip (a b : Z) :
  GoInt.in_int a -> GoInt.in_int b ->
  (let (col, row) := ToOffset (NewAxialCoord a b) in OffsetToAxial col row)
    = NewAxialCoord a b
  /\ ToOffset (OffsetToAxial a b) = (a, b).
Proof.
  intros Ha Hb. unfold ToOffset, OffsetToAxial. cbn [cQ cR]. split.
  - f_equal. now apply add_sub_cancel.
  - f_equal. now apply sub_add_cancel.
Qed.

Lemma offset_round_trip_witness :
  ((let (col, row) := ToOffset (NewAxialCoord GoInt.max_int (-7)) in
    OffsetToAxial col row) = NewAxialCoord GoInt.max_int (-7)
   /\ ToOffset (OffsetToAxial GoInt.max_int (-7)) = (GoInt.max_int, -7)).
Proof.
  apply (offset_round_trip GoInt.max_int (-7));
    unfold GoInt.in_int, GoInt.min_int, GoInt.max_int; lia.
Defined.

End RoundTrip.

(** ** Results of Go calls *)

(** A call either returns or panics; the message is the one the runtime
    or the source gives. *)
Inductive Result (A : Type) : Type :=
  | Returned (a : A)
  | Panicked (msg : string).

Arguments Returned {A} a.
Arguments Panicked {A} msg.

#[global] Instance Result_ret : MRet Result := fun A a => Returned a.
#[global] Instance Result_bind : MBind Result := fun A B f m =>
  match m with
  | Returned a => f a
  | Panicked msg => Panicked msg
  end.

Definition returned {A} (m : Result A) : bool :=
  match m with Returned _ => true | Panicked _ => false end.

Definition divide_by_zero : string :=
  "runtime error: integer divide by zero"%string.
Definition makeslice_len : string :=
  "runtime error: makeslice: len out of range"%string.
Definition index_out_of_range : string :=
  "runtime error: index out of range"%string.

(** [a % b], which panics on [b = 0]. *)
Definition go_rem (a b : Z) : Result Z :=
  if b =? 0 then Panicked divide_by_zero else Returned (GoInt.rem a b).

(** ** pkg/hex: the grid *)

Inductive Topology : Type := TopologyRegion | TopologyWorld.

#[global] Instance Topology_eq_dec : EqDecision Topology.
Proof. solve_decision. Defined.

Record GridConfig : Type :=
  { Width : Z; Height : Z; Topology_ : Topology }.

(** [Grid]: the configuration, the per-cell slots ([interface{}] values,
    [None] for Go's [nil]) and the map of valid coordinates. *)
Record Grid (V : Type) : Type :=
  { config : GridConfig;
    tiles : list (list (option V));
    coordMap : gmap AxialCoord bool }.

Arguments config {V} g.
Arguments tiles {V} g.
Arguments coordMap {V} g.

(** The index values of [for i := lo; i < hi; i++]. *)
Definition range (lo hi : Z) : list Z := seqZ lo (hi - lo).

(** The two loops that fill [coordMap] in [NewGrid]. *)
Definition fill_coordMap (w h : Z) : gmap AxialCoord bool :=
  foldl (fun m row =>
           foldl (fun m col => <[OffsetToAxial col row := true]> m)
                 m (range 0 w))
        ∅ (range 0 h).

(** [func NewGrid(config GridConfig) *Grid]; [make] panics on a negative
    length. *)
Definition NewGrid {V} (cfg : GridConfig) : Result (Grid V) :=
  if Height cfg <? 0 then Panicked makeslice_len
  else if (0 <? Height cfg) && (Width cfg <? 0) then Panicked makeslice_len
  else
    Returned
      {| config := cfg;
         tiles := replicate (Z.to_nat (Height cfg))
                            (replicate (Z.to_nat (Width cfg)) None);
         coordMap := fill_coordMap (Width cfg) (Height cfg) |}.

(** [g.coordMap[c]]: a missing key reads as [false]. *)
Definition coordMap_get {V} (g : Grid V) (c : AxialCoord) : bool :=
  default false (coordMap g !! c).

(** [func (g *Grid) WrapCoord(coord AxialCoord) AxialCoord] *)
Definition WrapCoord {V} (g : Grid V) (coord : AxialCoord) : Result AxialCoord :=
  match Topology_ (config g) with
  | TopologyRegion => Returned coord
  | TopologyWorld =>
      let '(col, row) := ToOffset coord in
      c1 ← go_rem col (Width (config g));
      col' ← go_rem (GoInt.add c1 (Width (config g))) (Width (config g));
      r1 ← go_rem row (Height (config g));
      row' ← go_rem (GoInt.add r1 (Height (config g))) (Height (config g));
      Returned (OffsetToAxial col' row')
  end.

(** [func (g *Grid) IsValid(coord AxialCoord) bool] *)
Definition IsValid {V} (g : Grid V) (coord : AxialCoord) : Result bool :=
  match Topology_ (config g) with
  | TopologyWorld =>
      wrapped ← WrapCoord g coord;
      Returned (coordMap_get g wrapped)
  | TopologyRegion => Returned (coordMap_get g coord)
  end.

(** [func (g *Grid) AllCoords() []AxialCoord] *)
Definition AllCoords {V} (g : Grid V) : list AxialCoord :=
  flat_map (fun row => map (fun col => OffsetToAxial col row)
                           (range 0 (Width (config g))))
           (range 0 (Height (config g))).

Definition hexDirections : list AxialCoord :=
  [NewAxialCoord 1 0; NewAxialCoord 1 (-1); NewAxialCoord 0 (-1);
   NewAxialCoord (-1) 0; NewAxialCoord (-1) 1; NewAxialCoord 0 1].

(** [func (c AxialCoord) Neighbors(grid *Grid) []AxialCoord]: the loop
    over [hexDirections], appending to [neighbors]. *)
Definition Neighbors {V} (c : AxialCoord) (grid : Grid V) : Result (list AxialCoord) :=
  foldl (fun acc direction =>
           neighbors ← acc;
           let neighbor := NewAxialCoord (GoInt.add (cQ c) (cQ direction))
                                         (GoInt.add (cR c) (cR direction)) in
           match Topology_ (config grid) with
           | TopologyWorld =>
               wrapped ← WrapCoord grid neighbor;
               Returned (neighbors ++ [wrapped])
           | TopologyRegion =>
               valid ← IsValid grid neighbor;
               if valid : bool then Returned (neighbors ++ [neighbor])
               else Returned neighbors
           end)
        (Returned []) hexDirections.

(** [func (c AxialCoord) IsEdgeHex(grid *Grid) bool] *)
Definition IsEdgeHex {V} (c : AxialCoord) (grid : Grid V) : Result bool :=
  match Topology_ (config grid) with
  | TopologyWorld => Returned false
  | TopologyRegion =>
      neighbors ← Neighbors c grid;
      Returned (Z.of_nat (length neighbors) <? 6)
  end.

(** [func abs(x int) int] *)
Definition abs (x : Z) : Z := if x <? 0 then GoInt.neg x else x.

(** [func hexDistance(a, b AxialCoord) int] *)
Definition hexDistance (a b : AxialCoord) : Z :=
  GoInt.quo
    (GoInt.add
       (GoInt.add (abs (GoInt.sub (cQ a) (cQ b)))
                  (abs (GoInt.sub (GoInt.sub (GoInt.add (cQ a) (cR a)) (cQ b))
                                  (cR b))))
       (abs (GoInt.sub (cR a) (cR b))))
    2.

(** The values of [for d := -1; d <= 1; d++]. *)
Definition wrap_offsets : list Z := range (-1) 2.

(** [func (c AxialCoord) DistanceTo(other AxialCoord, grid *Grid) int] *)
Definition DistanceTo {V} (c other : AxialCoord) (grid : Grid V) : Z :=
  match Topology_ (config grid) with
  | TopologyRegion => hexDistance c other
  | TopologyWorld =>
      foldl (fun minDist dq =>
               foldl (fun minDist dr =>
                        let wrappedOther :=
                          NewAxialCoord
                            (GoInt.add (cQ other)
                                       (GoInt.mul dq (Width (config grid))))
                            (GoInt.add (cR other)
                                       (GoInt.mul dr (Height (config grid)))) in
                        let dist := hexDistance c wrappedOther in
                        if dist <? minDist then dist else minDist)
                     minDist wrap_offsets)
            (hexDistance c other) wrap_offsets
  end.

(** ** Properties: wrapping on the offset torus *)

Section Wrapping.

Import GoInt.

(** [((x % n) + n) % n] is the floored modulus when [n + n] cannot
    overflow. *)
Lemma floored_modulus (x n : Z) :
  0 < n < 2 ^ 62 -> in_int x ->
  (c1 ← go_rem x n; go_rem (add c1 n) n) = Returned (x mod n).
Proof.
  intros Hn Hx. unfold go_rem.
  destruct (Z.eqb_spec n 0) as [->|_]; [lia|]. cbn.
  destruct (Z.eqb_spec n 0) as [->|_]; [lia|]. f_equal.
  unfold rem, add.
  assert (Hr : - n < Z.rem x n < n).
  { pose proof (Z.rem_bound_abs x n ltac:(lia)). lia. }
  rewrite wrap64_id by (unfold in_int, min_int, max_int; lia).
  rewrite Z.rem_mod_nonneg by lia.
  pose proof (Z.quot_rem' x n) as Hq.
  replace (Z.rem x n + n) with (x + (1 - Z.quot x n) * n) by lia.
  apply Z.mod_add. lia.
Qed.

Lemma floored_modulus_small (x n : Z) : 0 <= x < n -> x mod n = x.
Proof. intros. now apply Z.mod_small. Qed.

(** The conversions on offsets that lie in a grid: nothing wraps. *)
Lemma ToOffset_OffsetToAxial (col row : Z) :
  in_int col -> in_int row -> ToOffset (OffsetToAxial col row) = (col, row).
Proof.
  intros Hc Hr. unfold ToOffset, OffsetToAxial. cbn [cQ cR].
  f_equal. now apply sub_add_cancel.
Qed.

Context {V : Type}.

Lemma WrapCoord_world (g : Grid V) (c : AxialCoord) :
  Topology_ (config g) = TopologyWorld ->
  0 < Width (config g) < 2 ^ 62 -> 0 < Height (config g) < 2 ^ 62 ->
  coord_ok c ->
  WrapCoord g c =
    Returned (OffsetToAxial (fst (ToOffset c) mod Width (config g))
                            (snd (ToOffset c) mod Height (config g))).
Proof.
  intros Ht Hw Hh [Hq Hr]. unfold WrapCoord. rewrite Ht.
  destruct (ToOffset c) as [col row] eqn:E. cbn [fst snd].
  assert (Hcol : in_int col).
  { unfold ToOffset in E. now injection E as <- _. }
  assert (Hrow : in_int row).
  { unfold ToOffset in E. injection E as _ <-. apply wrap64_range. }
  pose proof (floored_modulus col _ Hw Hcol) as Ec.
  pose proof (floored_modulus row _ Hh Hrow) as Er.
  unfold mbind, Result_bind in *.
  destruct (go_rem col (Width (config g))) as [c1|]; [|discriminate].
  rewrite Ec.
  destruct (go_rem row (Height (config g))) as [r1|]; [|discriminate].
  now rewrite Er.
Qed.

(** Keys written by the loops of [NewGrid] stay in the map. *)
Lemma fill_row_keeps (m : gmap AxialCoord bool) (row : Z) (cols : list Z) k :
  m !! k = Some true ->
  foldl (fun m col => <[OffsetToAxial col row := true]> m) m cols !! k
    = Some true.
Proof.
  revert m. induction cols as [|col cols IH]; intros m Hm; [exact Hm|].
  cbn. apply IH. destruct (decide (OffsetToAxial col row = k)) as [->|Hne].
  - apply lookup_insert_eq.
  - now rewrite lookup_insert_ne.
Qed.

Lemma fill_row_writes (m : gmap AxialCoord bool) (row : Z) (cols : list Z) col :
  col ∈ cols ->
  foldl (fun m col => <[OffsetToAxial col row := true]> m) m cols
    !! OffsetToAxial col row = Some true.
Proof.
  revert m. induction cols as [|c cols IH]; intros m Hin.
  - inversion Hin.
  - cbn. apply elem_of_cons in Hin as [->|Hin].
    + apply fill_row_keeps, lookup_insert_eq.
    + now apply IH.
Qed.

Lemma fill_rows_keeps (m : gmap AxialCoord bool) (cols rows : list Z) k :
  m !! k = Some true ->
  foldl (fun m row =>
           foldl (fun m col => <[OffsetToAxial col row := true]> m) m cols)
        m rows !! k = Some true.
Proof.
  revert m. induction rows as [|row rows IH]; intros m Hm; [exact Hm|].
  cbn. apply IH. now apply fill_row_keeps.
Qed.

Lemma fill_coordMap_writes (w h col row : Z) :
  0 <= col < w -> 0 <= row < h ->
  fill_coordMap w h !! OffsetToAxial col row = Some true.
Proof.
  intros Hc Hr. unfold fill_coordMap.
  assert (Hcol : col ∈ range 0 w) by (unfold range; apply elem_of_seqZ; lia).
  assert (Hrow : row ∈ range 0 h) by (unfold range; apply elem_of_seqZ; lia).
  generalize (∅ : gmap AxialCoord bool) as m.
  induction (range 0 h) as [|r rows IH]; intros m.
  - inversion Hrow.
  - cbn. apply elem_of_cons in Hrow as [->|Hrow].
    + apply fill_rows_keeps. now apply fill_row_writes.
    + now apply IH.
Qed.

(** C10. On a World grid built by [NewGrid] with positive width and
    height (below [2^62]: the grid was allocated), for every coordinate
    [c], however far outside the grid: [WrapCoord c] returns a coordinate
    [w] on which [IsValid] returns true, and [WrapCoord w = w]. *)
Theorem WrapCoord_valid_idempotent (cfg : GridConfig) (g : Grid V)
    (c : AxialCoord) :
  NewGrid cfg = Returned g ->
  Topology_ cfg = TopologyWorld ->
  0 < Width cfg < 2 ^ 62 -> 0 < Height cfg < 2 ^ 62 ->
  coord_ok c ->
  exists w, WrapCoord g c = Returned w
            /\ IsValid g w = Returned true
            /\ WrapCoord g w = Returned w.
Proof.
  intros Hg Ht Hw Hh Hc. unfold NewGrid in Hg.
  destruct (Z.ltb_spec (Height cfg) 0); [lia|].
  destruct (Z.ltb_spec (Width cfg) 0); [lia|].
  rewrite andb_false_r in Hg. injection Hg as <-.
  set (g := {| config := cfg; tiles := _; coordMap := _ |}).
  assert (Ht' : Topology_ (config g) = TopologyWorld) by exact Ht.
  rewrite (WrapCoord_world g c Ht' Hw Hh Hc). cbn [config g].
  set (col := fst (ToOffset c) mod Width cfg).
  set (row := snd (ToOffset c) mod Height cfg).
  assert (Hcol : 0 <= col < Width cfg) by (apply Z.mod_pos_bound; lia).
  assert (Hrow : 0 <= row < Height cfg) by (apply Z.mod_pos_bound; lia).
  assert (Hic : in_int col) by (unfold in_int, min_int, max_int; lia).
  assert (Hir : in_int row) by (unfold in_int, min_int, max_int; lia).
  assert (Hok : coord_ok (OffsetToAxial col row)).
  { split; cbn; [exact Hic|apply wrap64_range]. }
  assert (Hfix : WrapCoord g (OffsetToAxial col row)
                 = Returned (OffsetToAxial col row)).
  { rewrite (WrapCoord_world g _ Ht' Hw Hh Hok). cbn [config g].
    rewrite ToOffset_OffsetToAxial by assumption. cbn [fst snd].
    now rewrite !floored_modulus_small. }
  exists (OffsetToAxial col row). split; [reflexivity|]. split; [|exact Hfix].
  unfold IsValid. rewrite Ht', Hfix. cbn. f_equal.
  unfold coordMap_get. cbn [coordMap g].
  now rewrite fill_coordMap_writes.
Qed.

End Wrapping.

Lemma WrapCoord_valid_idempotent_witness :
  exists w,
    WrapCoord {| config := {| Width := 5; Height := 3; Topology_ := TopologyWorld |};
                 tiles := replicate 3 (replicate 5 (@None unit));
                 coordMap := fill_coordMap 5 3 |}
              (NewAxialCoord (-1000001) 777) = Returned w
    /\ IsValid {| config := {| Width := 5; Height := 3; Topology_ := TopologyWorld |};
                  tiles := replicate 3 (replicate 5 (@None unit));
                  coordMap := fill_coordMap 5 3 |} w = Returned true
    /\ WrapCoord {| config := {| Width := 5; Height := 3; Topology_ := TopologyWorld |};
                    tiles := replicate 3 (replicate 5 (@None unit));
                    coordMap := fill_coordMap 5 3 |} w = Returned w.
Proof.
  apply (WrapCoord_valid_idempotent
           {| Width := 5; Height := 3; Topology_ := TopologyWorld |}).
  - reflexivity.
  - reflexivity.
  - cbn; lia.
  - cbn; lia.
  - split; cbn; unfold GoInt.in_int, GoInt.min_int, GoInt.max_int; lia.
Defined.

(** ** Properties: distance under the two topologies *)

(** [other] moved by [(dq * Width, dr * Height)] in axial space: the
    candidate [wrappedOther] of [DistanceTo]. *)
Definition axial_shift {V} (grid : Grid V) (other : AxialCoord) (dq dr : Z)
    : AxialCoord :=
  NewAxialCoord (GoInt.add (cQ other) (GoInt.mul dq (Width (config grid))))
                (GoInt.add (cR other) (GoInt.mul dr (Height (config grid)))).

(** [other] moved by [(dq * Width, dr * Height)] in offset space, as the
    specification words it: to offset, shift column and row, back to
    axial. *)
Definition spec_offset_shift {V} (grid : Grid V) (other : AxialCoord)
    (dq dr : Z) : AxialCoord :=
  let '(col, row) := ToOffset other in
  OffsetToAxial (GoInt.add col (GoInt.mul dq (Width (config grid))))
                (GoInt.add row (GoInt.mul dr (Height (config grid)))).

(** The nine offsets [(dq, dr)] of [{-1, 0, 1}²]. *)
Definition nine_offsets : list (Z * Z) :=
  dq ← wrap_offsets; dr ← wrap_offsets; [(dq, dr)].

(** The World distance of the specification: the least hex distance to a
    copy of [b] shifted in offset space. *)
Definition spec_world_distance {V} (grid : Grid V) (a b : AxialCoord) : Z :=
  let dists := map (fun '(dq, dr) => hexDistance a (spec_offset_shift grid b dq dr))
                   nine_offsets in
  foldr Z.min (hd 0 dists) dists.

Section Distance.

Context {A B : Type} (f : A -> B -> Z).

(** The running minimum of the two nested loops. *)
Definition min_loop (l1 : list A) (l2 : list B) (init : Z) : Z :=
  foldl (fun m a => foldl (fun m b => if f a b <? m then f a b else m) m l2)
        init l1.

Lemma min_inner (a : A) (l2 : list B) (init : Z) :
  let r := foldl (fun m b => if f a b <? m then f a b else m) init l2 in
  r <= init /\ (forall b, b ∈ l2 -> r <= f a b)
  /\ (r = init \/ exists b, b ∈ l2 /\ r = f a b).
Proof.
  revert init. induction l2 as [|b l2 IH]; intros init; cbn.
  - split; [lia|]. split; [|now left]. intros b Hb. inversion Hb.
  - destruct (IH (if f a b <? init then f a b else init)) as (H1 & H2 & H3).
    destruct (Z.ltb_spec (f a b) init) as [Hlt|Hge].
    + split; [lia|]. split.
      * intros b' Hb'. apply elem_of_cons in Hb' as [->|Hb']; [lia|now apply H2].
      * right. destruct H3 as [->|(b' & Hb' & ->)].
        -- exists b. split; [left|reflexivity].
        -- exists b'. split; [now right|reflexivity].
    + split; [lia|]. split.
      * intros b' Hb'. apply elem_of_cons in Hb' as [->|Hb']; [lia|now apply H2].
      * destruct H3 as [->|(b' & Hb' & ->)]; [now left|].
        right. exists b'. split; [now right|reflexivity].
Qed.

Lemma min_loop_spec (l1 : list A) (l2 : list B) (init : Z) :
  min_loop l1 l2 init <= init
  /\ (forall a b, a ∈ l1 -> b ∈ l2 -> min_loop l1 l2 init <= f a b)
  /\ (min_loop l1 l2 init = init
      \/ exists a b, a ∈ l1 /\ b ∈ l2 /\ min_loop l1 l2 init = f a b).
Proof.
  unfold min_loop. revert init. induction l1 as [|a l1 IH]; intros init; cbn.
  - split; [lia|]. split; [|now left]. intros a b Ha. inversion Ha.
  - destruct (min_inner a l2 init) as (I1 & I2 & I3). cbn zeta in *.
    set (m := foldl _ init l2) in *.
    destruct (IH m) as (H1 & H2 & H3).
    split; [lia|]. split.
    + intros a' b Ha' Hb. apply elem_of_cons in Ha' as [->|Ha'].
      * specialize (I2 b Hb). lia.
      * now apply H2.
    + destruct H3 as [->|(a' & b & Ha' & Hb & ->)].
      * destruct I3 as [->|(b & Hb & ->)]; [now left|].
        right. exists a, b. split; [left|]. split; [exact Hb|reflexivity].
      * right. exists a', b. split; [now right|]. split; [exact Hb|reflexivity].
Qed.

End Distance.

Lemma DistanceTo_world {V} (c other : AxialCoord) (grid : Grid V) :
  Topology_ (config grid) = TopologyWorld ->
  DistanceTo c other grid
  = min_loop (fun dq dr => hexDistance c (axial_shift grid other dq dr))
             wrap_offsets wrap_offsets (hexDistance c other).
Proof.
  intros Ht. unfold DistanceTo, min_loop, axial_shift. rewrite Ht.
  reflexivity.
Qed.

Lemma axial_shift_zero {V} (grid : Grid V) (other : AxialCoord) :
  coord_ok other -> axial_shift grid other 0 0 = other.
Proof.
  intros [Hq Hr]. destruct other as [q r]. unfold axial_shift, GoInt.add, GoInt.mul.
  cbn in *. rewrite !Z.add_0_r. now rewrite !GoInt.wrap64_id.
Qed.

(** C4, as the code has it.  On a World grid [DistanceTo a b] is the
    minimum over the nine offsets [(dq, dr)] of [{-1,0,1}²] of
    [hexDistance a b'], where [b'] is [b] with [dq * Width] added to its
    axial [q] and [dr * Height] added to its axial [r]; on a Region grid
    it is [hexDistance a b].  On a 10 by 8 grid the distance from (0,0) to
    (9,0) is 1 under World and 9 under Region. *)
Theorem DistanceTo_axial_minimum {V} (grid : Grid V) (a b : AxialCoord) :
  coord_ok b ->
  match Topology_ (config grid) with
  | TopologyRegion => DistanceTo a b grid = hexDistance a b
  | TopologyWorld =>
      (forall dq dr, dq ∈ wrap_offsets -> dr ∈ wrap_offsets ->
         DistanceTo a b grid <= hexDistance a (axial_shift grid b dq dr))
      /\ (exists dq dr, dq ∈ wrap_offsets /\ dr ∈ wrap_offsets
            /\ DistanceTo a b grid = hexDistance a (axial_shift grid b dq dr))
  end
  /\ (Width (config grid) = 10 -> Height (config grid) = 8 ->
      DistanceTo (NewAxialCoord 0 0) (NewAxialCoord 9 0) grid
      = match Topology_ (config grid) with
        | TopologyRegion => 9
        | TopologyWorld => 1
        end).
Proof.
  intros Hb. split.
  - destruct (Topology_ (config grid)) eqn:Ht.
    + unfold DistanceTo. rewrite Ht. reflexivity.
    + rewrite (DistanceTo_world a b grid Ht).
      destruct (min_loop_spec
                  (fun dq dr => hexDistance a (axial_shift grid b dq dr))
                  wrap_offsets wrap_offsets (hexDistance a b))
        as (H1 & H2 & H3).
      split; [exact H2|].
      destruct H3 as [H3|H3]; [|exact H3].
      exists 0, 0. rewrite axial_shift_zero by exact Hb.
      repeat split; [| |exact H3]; unfold wrap_offsets, range; apply elem_of_seqZ; lia.
  - intros Hw Hh. unfold DistanceTo. rewrite Hw, Hh.
    destruct (Topology_ (config grid)); reflexivity.
Qed.

Lemma DistanceTo_axial_minimum_witness :
  let grid := {| config := {| Width := 10; Height := 8; Topology_ := TopologyWorld |};
                 tiles := @nil (list (option unit));
                 coordMap := ∅ |} in
  ((forall dq dr, dq ∈ wrap_offsets -> dr ∈ wrap_offsets ->
      DistanceTo (NewAxialCoord 0 0) (NewAxialCoord 9 7) grid
      <= hexDistance (NewAxialCoord 0 0) (axial_shift grid (NewAxialCoord 9 7) dq dr))
   /\ (exists dq dr, dq ∈ wrap_offsets /\ dr ∈ wrap_offsets
         /\ DistanceTo (NewAxialCoord 0 0) (NewAxialCoord 9 7) grid
            = hexDistance (NewAxialCoord 0 0) (axial_shift grid (NewAxialCoord 9 7) dq dr)))
  /\ (10 = 10 -> 8 = 8 ->
      DistanceTo (NewAxialCoord 0 0) (NewAxialCoord 9 0) grid = 1).
Proof.
  apply (DistanceTo_axial_minimum
           {| config := {| Width := 10; Height := 8; Topology_ := TopologyWorld |};
              tiles := @nil (list (option unit)); coordMap := ∅ |}
           (NewAxialCoord 0 0) (NewAxialCoord 9 7)).
  split; cbn; unfold GoInt.in_int, GoInt.min_int, GoInt.max_int; lia.
Defined.

(** C4, as the specification words it, fails on the very example it
    gives: on the 10 by 8 World grid [DistanceTo (0,0) (9,0)] is 1, and
    the least distance over the nine copies shifted in offset space is 4. *)
Lemma DistanceTo_not_offset_minimum :
  exists grid : Grid unit,
    NewGrid {| Width := 10; Height := 8; Topology_ := TopologyWorld |}
      = Returned grid
    /\ DistanceTo (NewAxialCoord 0 0) (NewAxialCoord 9 0) grid = 1
    /\ spec_world_distance grid (NewAxialCoord 0 0) (NewAxialCoord 9 0) = 4.
Proof. eexists. split; [reflexivity|]. split; vm_compute; reflexivity. Qed.

(** ** Properties: neighbours at the corner of a 5 by 3 grid *)

Definition grid_5x3 (t : Topology) : Result (Grid unit) :=
  NewGrid {| Width := 5; Height := 3; Topology_ := t |}.

(** The neighbour set the specification names for the corner [(0,0)] of
    the Region grid: [{(1,0), (-1,1), (0,1)}] intersected with the valid
    set. *)
Definition spec_corner_neighbors (grid : Grid unit) : list AxialCoord :=
  List.filter (coordMap_get grid)
              [NewAxialCoord 1 0; NewAxialCoord (-1) 1; NewAxialCoord 0 1].

(** C8, as the code has it.  On the Region grid of width 5 and height 3
    the coordinate (0,0) has exactly three neighbours, (1,0), (1,-1) and
    (0,1), in the order of [hexDirections]; on the World grid of the same
    size it has six, pairwise distinct after wrapping. *)
Theorem Neighbors_corner_5x3 :
  (grid ← grid_5x3 TopologyRegion; Neighbors (NewAxialCoord 0 0) grid)
  = Returned [NewAxialCoord 1 0; NewAxialCoord 1 (-1); NewAxialCoord 0 1]
  /\ (grid ← grid_5x3 TopologyWorld; Neighbors (NewAxialCoord 0 0) grid)
     = Returned [NewAxialCoord 1 0; NewAxialCoord 1 (-1); NewAxialCoord 0 2;
                 NewAxialCoord 4 (-2); NewAxialCoord 4 (-1); NewAxialCoord 0 1].
Proof. split; vm_compute; reflexivity. Qed.

(** C8, as the specification words it, names the wrong set: (-1,1) lies
    outside the Region grid, so the named set meets the valid set in two
    coordinates only, and the third neighbour the code returns, (1,-1),
    is not in it. *)
Lemma Neighbors_corner_not_spec_set :
  (grid ← grid_5x3 TopologyRegion; Neighbors (NewAxialCoord 0 0) grid)
  = Returned [NewAxialCoord 1 0; NewAxialCoord 1 (-1); NewAxialCoord 0 1]
  /\ (grid ← grid_5x3 TopologyRegion; Returned (spec_corner_neighbors grid))
     = Returned [NewAxialCoord 1 0; NewAxialCoord 0 1].
Proof. split; vm_compute; reflexivity. Qed.

(** * Further properties of the code *)

(** ** pkg/hex: what [NewGrid] builds *)

Section GridFacts.

Import GoInt.

Context {V : Type}.

Lemma in_int_below (x n : Z) : 0 <= x < n -> n < 2 ^ 62 -> in_int x.
Proof. unfold in_int, min_int, max_int. lia. Qed.

Lemma NewGrid_returned (cfg : GridConfig) (g : Grid V) :
  NewGrid cfg = Returned g ->
  config g = cfg
  /\ coordMap g = fill_coordMap (Width cfg) (Height cfg)
  /\ tiles g = replicate (Z.to_nat (Height cfg))
                         (replicate (Z.to_nat (Width cfg)) None)
  /\ 0 <= Height cfg /\ (0 < Height cfg -> 0 <= Width cfg).
Proof.
  unfold NewGrid. intros Hg.
  destruct (Z.ltb_spec (Height cfg) 0); [discriminate|].
  destruct (Z.ltb_spec 0 (Height cfg)), (Z.ltb_spec (Width cfg) 0);
    cbn in Hg; try discriminate; injection Hg as <-; cbn; repeat split; lia.
Qed.

(** Every value of the map is [true], and every key was written by the
    loops. *)
Lemma fill_row_inv (m : gmap AxialCoord bool) (row : Z) (cols : list Z) k v :
  foldl (fun m col => <[OffsetToAxial col row := true]> m) m cols !! k = Some v ->
  m !! k = Some v
  \/ (v = true /\ exists col, col ∈ cols /\ k = OffsetToAxial col row).
Proof.
  revert m. induction cols as [|col cols IH]; intros m Hk; [now left|].
  cbn in Hk. apply IH in Hk as [Hk|(-> & c & Hc & ->)].
  - destruct (decide (OffsetToAxial col row = k)) as [<-|Hne].
    + rewrite lookup_insert_eq in Hk. injection Hk as <-.
      right. split; [reflexivity|]. exists col. split; [left|reflexivity].
    + rewrite lookup_insert_ne in Hk by exact Hne. now left.
  - right. split; [reflexivity|]. exists c. split; [now right|reflexivity].
Qed.

Lemma fill_rows_inv (m : gmap AxialCoord bool) (cols rows : list Z) k v :
  foldl (fun m row =>
           foldl (fun m col => <[OffsetToAxial col row := true]> m) m cols)
        m rows !! k = Some v ->
  m !! k = Some v
  \/ (v = true /\ exists col row,
        col ∈ cols /\ row ∈ rows /\ k = OffsetToAxial col row).
Proof.
  revert m. induction rows as [|row rows IH]; intros m Hk; [now left|].
  cbn in Hk. apply IH in Hk as [Hk|(-> & c & r & Hc & Hr & ->)].
  - apply fill_row_inv in Hk as [Hk|(-> & c & Hc & ->)]; [now left|].
    right. split; [reflexivity|]. exists c, row.
    split; [exact Hc|]. split; [left|reflexivity].
  - right. split; [reflexivity|]. exists c, r.
    split; [exact Hc|]. split; [now right|reflexivity].
Qed.

Lemma fill_coordMap_inv (w h : Z) k v :
  fill_coordMap w h !! k = Some v ->
  v = true /\ exists col row,
    0 <= col < w /\ 0 <= row < h /\ k = OffsetToAxial col row.
Proof.
  unfold fill_coordMap. intros Hk.
  apply fill_rows_inv in Hk as [Hk|(-> & c & r & Hc & Hr & ->)].
  - rewrite lookup_empty in Hk. discriminate.
  - split; [reflexivity|]. exists c, r.
    unfold range in *. apply elem_of_seqZ in Hc, Hr.
    split; [lia|]. split; [lia|reflexivity].
Qed.

(** The test a Region grid applies to a coordinate, read in offset
    space. *)
Definition in_bounds (cfg : GridConfig) (c : AxialCoord) : bool :=
  let '(col, row) := ToOffset c in
  (0 <=? col) && (col <? Width cfg) && (0 <=? row) && (row <? Height cfg).

Lemma OffsetToAxial_ToOffset (c : AxialCoord) :
  coord_ok c -> OffsetToAxial (fst (ToOffset c)) (snd (ToOffset c)) = c.
Proof.
  intros [Hq Hr]. destruct c as [q r]. unfold ToOffset, OffsetToAxial.
  cbn [cQ cR fst snd] in *. f_equal. now apply add_sub_cancel.
Qed.

Lemma coordMap_get_fill (cfg : GridConfig) (g : Grid V) (c : AxialCoord) :
  NewGrid cfg = Returned g ->
  in_int (Width cfg) -> in_int (Height cfg) -> coord_ok c ->
  coordMap_get g c = in_bounds cfg c.
Proof.
  intros Hg Hw Hh Hc. apply NewGrid_returned in Hg as (_ & Hm & _).
  unfold coordMap_get, in_bounds. rewrite Hm.
  pose proof (OffsetToAxial_ToOffset c Hc) as Hrt.
  destruct (ToOffset c) as [col row] eqn:E. cbn [fst snd] in Hrt.
  destruct (fill_coordMap (Width cfg) (Height cfg) !! c) as [v|] eqn:Hk.
  - apply fill_coordMap_inv in Hk as (-> & col' & row' & Hc' & Hr' & Hk).
    assert (ToOffset c = (col', row')) as E'.
    { rewrite Hk. apply ToOffset_OffsetToAxial;
        unfold in_int, min_int, max_int in *; lia. }
    rewrite E in E'. injection E' as -> ->. cbn.
    symmetry. apply andb_true_iff. split; [|lia].
    apply andb_true_iff. split; [|lia]. apply andb_true_iff. lia.
  - cbn. symmetry. apply not_true_is_false. intros Hb.
    apply andb_true_iff in Hb as [Hb Hb4]. apply andb_true_iff in Hb as [Hb Hb3].
    apply andb_true_iff in Hb as [Hb1 Hb2].
    rewrite <- Hrt, fill_coordMap_writes in Hk by lia. discriminate.
Qed.

(** X1. On a Region grid built by [NewGrid], [IsValid c] returns and is
    true exactly when the offset [(col, row)] of [c] satisfies
    [0 <= col < Width] and [0 <= row < Height]. *)
Theorem IsValid_region_in_bounds (cfg : GridConfig) (g : Grid V)
    (c : AxialCoord) :
  NewGrid cfg = Returned g ->
  Topology_ cfg = TopologyRegion ->
  GoInt.in_int (Width cfg) -> GoInt.in_int (Height cfg) -> coord_ok c ->
  IsValid g c = Returned (in_bounds cfg c).
Proof.
  intros Hg Ht Hw Hh Hc. unfold IsValid.
  destruct (NewGrid_returned cfg g Hg) as (-> & _). rewrite Ht.
  f_equal. now apply coordMap_get_fill.
Qed.

End GridFacts.

Lemma IsValid_region_in_bounds_witness :
  IsValid {| config := {| Width := 5; Height := 3; Topology_ := TopologyRegion |};
             tiles := replicate 3 (replicate 5 (@None unit));
             coordMap := fill_coordMap 5 3 |} (NewAxialCoord 4 (-2))
  = Returned (in_bounds {| Width := 5; Height := 3; Topology_ := TopologyRegion |}
                        (NewAxialCoord 4 (-2))).
Proof.
  apply (IsValid_region_in_bounds
           {| Width := 5; Height := 3; Topology_ := TopologyRegion |}).
  - reflexivity.
  - reflexivity.
  - cbn; unfold GoInt.in_int, GoInt.min_int, GoInt.max_int; lia.
  - cbn; unfold GoInt.in_int, GoInt.min_int, GoInt.max_int; lia.
  - split; cbn; unfold GoInt.in_int, GoInt.min_int, GoInt.max_int; lia.
Defined.

(** ** pkg/hex: enumeration and neighbours *)

Section Enumeration.

Import GoInt.

Context {V : Type}.

(** Every cell of the rectangle is valid, under either topology. *)
Lemma IsValid_in_grid (cfg : GridConfig) (g : Grid V) (col row : Z) :
  NewGrid cfg = Returned g ->
  0 <= col < Width cfg -> Width cfg < 2 ^ 62 ->
  0 <= row < Height cfg -> Height cfg < 2 ^ 62 ->
  IsValid g (OffsetToAxial col row) = Returned true.
Proof.
  intros Hg Hc Hw Hr Hh.
  destruct (NewGrid_returned cfg g Hg) as (Hcfg & Hm & _).
  assert (Hic : in_int col) by (eapply in_int_below; eauto).
  assert (Hir : in_int row) by (eapply in_int_below; eauto).
  assert (Hget : coordMap_get g (OffsetToAxial col row) = true).
  { unfold coordMap_get. rewrite Hm, fill_coordMap_writes by assumption.
    reflexivity. }
  subst cfg. unfold IsValid. destruct (Topology_ (config g)) eqn:Ht.
  - now rewrite Hget.
  - assert (Hok : coord_ok (OffsetToAxial col row)).
    { split; cbn; [exact Hic|apply wrap64_range]. }
    rewrite (WrapCoord_world g _ Ht ltac:(lia) ltac:(lia) Hok).
    rewrite ToOffset_OffsetToAxial by assumption. cbn [fst snd].
    rewrite !floored_modulus_small by lia. cbn. now rewrite Hget.
Qed.

Lemma AllCoords_elem (g : Grid V) (c : AxialCoord) :
  c ∈ AllCoords g ->
  exists col row, 0 <= col < Width (config g) /\ 0 <= row < Height (config g)
                  /\ c = OffsetToAxial col row.
Proof.
  unfold AllCoords. intros Hc. apply list_elem_of_In, in_flat_map in Hc.
  destruct Hc as (row & Hrow & Hc). apply in_map_iff in Hc as (col & <- & Hcol).
  apply list_elem_of_In in Hrow, Hcol. unfold range in *.
  apply elem_of_seqZ in Hrow, Hcol. exists col, row. repeat split; lia.
Qed.

Lemma AllCoords_length (g : Grid V) :
  length (AllCoords g)
  = (Z.to_nat (Height (config g)) * Z.to_nat (Width (config g)))%nat.
Proof.
  unfold AllCoords, range.
  assert (Hlen : forall rows cols : list Z,
            length (flat_map (fun row => map (fun col => OffsetToAxial col row) cols)
                             rows)
            = (length rows * length cols)%nat).
  { intros rows cols. induction rows as [|row rows IH]; [reflexivity|].
    cbn. now rewrite length_app, IH, length_map. }
  now rewrite Hlen, !length_seqZ, !Z.sub_0_r.
Qed.

Lemma row_coords_NoDup (row : Z) (cols : list Z) :
  NoDup cols -> NoDup (map (fun col => OffsetToAxial col row) cols).
Proof.
  intros Hnd. apply (NoDup_fmap_2_strong _ cols); [|exact Hnd].
  intros x y _ _ E. now injection E.
Qed.

Lemma rows_coords_NoDup (rows cols : list Z) :
  NoDup rows -> NoDup cols ->
  Forall in_int rows -> Forall in_int cols ->
  NoDup (flat_map (fun row => map (fun col => OffsetToAxial col row) cols) rows).
Proof.
  intros Hr Hc Hir Hic. induction Hr as [|row rows Hnot Hr IH]; cbn.
  - constructor.
  - apply Forall_cons in Hir as [Hrow Hir].
    apply NoDup_app. split; [now apply row_coords_NoDup|].
    split; [|now apply IH].
    intros c Hc1 Hc2. apply list_elem_of_In in Hc1, Hc2.
    apply in_map_iff in Hc1 as (col & <- & Hcol).
    apply in_flat_map in Hc2 as (row' & Hrow' & Hc2).
    apply in_map_iff in Hc2 as (col' & E & Hcol').
    apply list_elem_of_In in Hcol, Hcol', Hrow'.
    assert (ToOffset (OffsetToAxial col' row') = ToOffset (OffsetToAxial col row))
      as E' by now rewrite E.
    rewrite !ToOffset_OffsetToAxial in E'.
    + injection E' as _ ->. contradiction.
    + exact (proj1 (Forall_forall _ _) Hic _ Hcol).
    + exact Hrow.
    + exact (proj1 (Forall_forall _ _) Hic _ Hcol').
    + exact (proj1 (Forall_forall _ _) Hir _ Hrow').
Qed.

Lemma range_in_int (n : Z) : n < 2 ^ 62 -> Forall in_int (range 0 n).
Proof.
  intros Hn. apply Forall_forall. intros x Hx. unfold range in Hx.
  apply elem_of_seqZ in Hx. unfold in_int, min_int, max_int. lia.
Qed.

(** X2. [AllCoords] of a grid built by [NewGrid] lists exactly
    [Width * Height] coordinates, without repetition, and [IsValid]
    returns true on each of them (the three checks of
    [TestGridAllCoords]). *)
Theorem AllCoords_complete (cfg : GridConfig) (g : Grid V) :
  NewGrid cfg = Returned g ->
  Width cfg < 2 ^ 62 -> Height cfg < 2 ^ 62 ->
  Z.of_nat (length (AllCoords g)) = Width cfg * Height cfg
  /\ NoDup (AllCoords g)
  /\ Forall (fun c => IsValid g c = Returned true) (AllCoords g).
Proof.
  intros Hg Hw Hh.
  destruct (NewGrid_returned cfg g Hg) as (Hcfg & _ & _ & Hh0 & Hw0).
  split; [|split].
  - rewrite AllCoords_length, Hcfg. destruct (Z.eq_dec (Height cfg) 0) as [->|Hne].
    + cbn. lia.
    + rewrite Nat2Z.inj_mul, !Z2Nat.id by lia. lia.
  - unfold AllCoords. rewrite Hcfg.
    apply rows_coords_NoDup;
      [apply NoDup_seqZ | apply NoDup_seqZ
      | now apply range_in_int | now apply range_in_int].
  - apply Forall_forall. intros c Hc.
    apply AllCoords_elem in Hc as (col & row & Hcol & Hrow & ->).
    rewrite Hcfg in Hcol, Hrow. now apply (IsValid_in_grid cfg).
Qed.

(** The wrapped image of a coordinate on a World grid. *)
Definition wrapped_of (g : Grid V) (c : AxialCoord) : AxialCoord :=
  OffsetToAxial (fst (ToOffset c) mod Width (config g))
                (snd (ToOffset c) mod Height (config g)).

Definition step_to (c direction : AxialCoord) : AxialCoord :=
  NewAxialCoord (add (cQ c) (cQ direction)) (add (cR c) (cR direction)).

Lemma step_to_ok (c d : AxialCoord) : coord_ok (step_to c d).
Proof. split; apply wrap64_range. Qed.

Lemma Neighbors_world_loop (g : Grid V) (c : AxialCoord)
    (dirs acc : list AxialCoord) :
  Topology_ (config g) = TopologyWorld ->
  0 < Width (config g) < 2 ^ 62 -> 0 < Height (config g) < 2 ^ 62 ->
  foldl (fun acc direction =>
           neighbors ← acc;
           let neighbor := NewAxialCoord (add (cQ c) (cQ direction))
                                         (add (cR c) (cR direction)) in
           match Topology_ (config g) with
           | TopologyWorld =>
               wrapped ← WrapCoord g neighbor;
               Returned (neighbors ++ [wrapped])
           | TopologyRegion =>
               valid ← IsValid g neighbor;
               if valid : bool then Returned (neighbors ++ [neighbor])
               else Returned neighbors
           end)
        (Returned acc) dirs
  = Returned (acc ++ map (fun d => wrapped_of g (step_to c d)) dirs).
Proof.
  intros Ht Hw Hh.
  match goal with |- foldl ?F _ _ = _ => set (body := F) end.
  assert (Hbody : forall l d,
            body (Returned l) d
            = Returned (l ++ [wrapped_of g (step_to c d)])).
  { intros l d. unfold body. cbn [mbind Result_bind]. rewrite Ht.
    pose proof (WrapCoord_world g (step_to c d) Ht Hw Hh (step_to_ok c d)) as E.
    unfold step_to in E at 1. rewrite E. reflexivity. }
  clearbody body. revert acc.
  induction dirs as [|d dirs IH]; intros acc; cbn [foldl map].
  - now rewrite app_nil_r.
  - rewrite Hbody, IH, <- app_assoc. reflexivity.
Qed.

(** X3. On a World grid built by [NewGrid] with positive width and
    height, [Neighbors c] returns exactly six coordinates for every
    coordinate [c], and [IsValid] returns true on each. *)
Theorem Neighbors_world_six (cfg : GridConfig) (g : Grid V) (c : AxialCoord) :
  NewGrid cfg = Returned g ->
  Topology_ cfg = TopologyWorld ->
  0 < Width cfg < 2 ^ 62 -> 0 < Height cfg < 2 ^ 62 ->
  exists l, Neighbors c g = Returned l
            /\ length l = 6%nat
            /\ Forall (fun n => IsValid g n = Returned true) l.
Proof.
  intros Hg Ht Hw Hh.
  destruct (NewGrid_returned cfg g Hg) as (Hcfg & _).
  rewrite <- Hcfg in Ht, Hw, Hh.
  unfold Neighbors. rewrite (Neighbors_world_loop g c _ [] Ht Hw Hh).
  eexists. split; [reflexivity|]. split; [reflexivity|].
  cbn [app]. apply Forall_forall. intros n Hn.
  apply list_elem_of_In, in_map_iff in Hn as (d & <- & _).
  unfold wrapped_of. rewrite Hcfg in *.
  apply (IsValid_in_grid cfg); try lia; try assumption;
    apply Z.mod_pos_bound; lia.
Qed.

End Enumeration.

Lemma AllCoords_complete_witness :
  let g := {| config := {| Width := 3; Height := 2; Topology_ := TopologyRegion |};
              tiles := replicate 2 (replicate 3 (@None unit));
              coordMap := fill_coordMap 3 2 |} in
  Z.of_nat (length (AllCoords g)) = 3 * 2
  /\ NoDup (AllCoords g)
  /\ Forall (fun c => IsValid g c = Returned true) (AllCoords g).
Proof.
  apply (AllCoords_complete
           {| Width := 3; Height := 2; Topology_ := TopologyRegion |}).
  - reflexivity.
  - cbn; lia.
  - cbn; lia.
Defined.

Lemma Neighbors_world_six_witness :
  let g := {| config := {| Width := 5; Height := 3; Topology_ := TopologyWorld |};
              tiles := replicate 3 (replicate 5 (@None unit));
              coordMap := fill_coordMap 5 3 |} in
  exists l, Neighbors (NewAxialCoord 4 0) g = Returned l
            /\ length l = 6%nat
            /\ Forall (fun n => IsValid g n = Returned true) l.
Proof.
  apply (Neighbors_world_six
           {| Width := 5; Height := 3; Topology_ := TopologyWorld |}).
  - reflexivity.
  - reflexivity.
  - cbn; lia.
  - cbn; lia.
Defined.

(** ** pkg/hex: [hexDistance] as a metric *)

Section Metric.

Import GoInt.

(** Coordinates far from the ends of [int]: no subtraction below wraps. *)
Definition bounded (n : Z) (c : AxialCoord) : Prop :=
  Z.abs (cQ c) <= n /\ Z.abs (cR c) <= n.

Lemma abs_exact (x : Z) : min_int < x <= max_int -> abs x = Z.abs x.
Proof.
  unfold abs, neg, min_int, max_int. intros Hx.
  destruct (Z.ltb_spec x 0).
  - rewrite wrap64_id by (unfold in_int, min_int, max_int; lia). lia.
  - lia.
Qed.

Lemma quot2_max (x y : Z) :
  Z.quot (Z.abs x + Z.abs (x + y) + Z.abs y) 2
  = Z.max (Z.abs x) (Z.max (Z.abs y) (Z.abs (x + y))).
Proof.
  replace (Z.abs x + Z.abs (x + y) + Z.abs y)
    with (Z.max (Z.abs x) (Z.max (Z.abs y) (Z.abs (x + y))) * 2) by lia.
  apply Z.quot_mul. lia.
Qed.

(** The hex norm of a displacement [(x, y)]: the largest of [|x|], [|y|]
    and [|x + y|]. *)
Definition hexnorm (x y : Z) : Z :=
  Z.max (Z.abs x) (Z.max (Z.abs y) (Z.abs (x + y))).

Lemma hexnorm_nonneg x y : 0 <= hexnorm x y.
Proof. unfold hexnorm. lia. Qed.

Lemma hexnorm_zero x y : hexnorm x y = 0 <-> x = 0 /\ y = 0.
Proof. unfold hexnorm. lia. Qed.

Lemma hexnorm_opp x y : hexnorm (- x) (- y) = hexnorm x y.
Proof. unfold hexnorm. replace (- x + - y) with (- (x + y)) by lia. lia. Qed.

Lemma hexnorm_triangle x1 y1 x2 y2 :
  hexnorm (x1 + x2) (y1 + y2) <= hexnorm x1 y1 + hexnorm x2 y2.
Proof.
  unfold hexnorm.
  replace (x1 + x2 + (y1 + y2)) with (x1 + y1 + (x2 + y2)) by lia.
  apply Z.max_lub; [|apply Z.max_lub];
    (eapply Z.le_trans; [apply Z.abs_triangle|]);
    apply Z.add_le_mono.
  - apply Z.le_max_l.
  - apply Z.le_max_l.
  - etransitivity; [apply Z.le_max_l|apply Z.le_max_r].
  - etransitivity; [apply Z.le_max_l|apply Z.le_max_r].
  - etransitivity; [apply Z.le_max_r|apply Z.le_max_r].
  - etransitivity; [apply Z.le_max_r|apply Z.le_max_r].
Qed.

(** Without wrap-around [hexDistance] is the hex norm of the
    difference. *)
Lemma hexDistance_exact (a b : AxialCoord) :
  bounded (2 ^ 59) a -> bounded (2 ^ 59) b ->
  hexDistance a b = hexnorm (cQ a - cQ b) (cR a - cR b).
Proof.
  unfold hexnorm.
  intros [Haq Har] [Hbq Hbr]. unfold hexDistance, quo, add, sub.
  assert (H59 : 2 ^ 59 = 576460752303423488) by reflexivity.
  rewrite H59 in *.
  assert (Hin : forall z, Z.abs z <= 4611686018427387904 -> in_int z)
    by (unfold in_int, min_int, max_int; lia).
  rewrite (wrap64_id (cQ a - cQ b)) by (apply Hin; lia).
  rewrite (wrap64_id (cR a - cR b)) by (apply Hin; lia).
  rewrite (wrap64_id (cQ a + cR a)) by (apply Hin; lia).
  rewrite (wrap64_id (cQ a + cR a - cQ b)) by (apply Hin; lia).
  rewrite (wrap64_id (cQ a + cR a - cQ b - cR b)) by (apply Hin; lia).
  rewrite !abs_exact by (unfold min_int, max_int; lia).
  rewrite (wrap64_id (Z.abs _ + Z.abs _)) by (apply Hin; lia).
  rewrite (wrap64_id (Z.abs _ + Z.abs _ + Z.abs _)) by (apply Hin; lia).
  replace (cQ a + cR a - cQ b - cR b) with ((cQ a - cQ b) + (cR a - cR b)) by lia.
  rewrite quot2_max.
  apply wrap64_id, Hin. lia.
Qed.

(** X4. On coordinates whose fields are at most [2^59] in absolute value
    [hexDistance] is a metric: non-negative, zero exactly between equal
    coordinates, symmetric, and it satisfies the triangle inequality. *)
Theorem hexDistance_metric (a b c : AxialCoord) :
  bounded (2 ^ 59) a -> bounded (2 ^ 59) b -> bounded (2 ^ 59) c ->
  0 <= hexDistance a b
  /\ (hexDistance a b = 0 <-> a = b)
  /\ hexDistance a b = hexDistance b a
  /\ hexDistance a c <= hexDistance a b + hexDistance b c.
Proof.
  intros Ha Hb Hc.
  rewrite (hexDistance_exact a b), (hexDistance_exact b a),
    (hexDistance_exact a c), (hexDistance_exact b c) by assumption.
  destruct a as [aq ar], b as [bq br], c as [cq cr]. cbn [cQ cR].
  split; [apply hexnorm_nonneg|]. split; [|split].
  - rewrite hexnorm_zero. split.
    + intros [? ?]. f_equal; lia.
    + intros E. injection E as -> ->. lia.
  - rewrite <- hexnorm_opp. f_equal; lia.
  - replace (aq - cq) with ((aq - bq) + (bq - cq)) by lia.
    replace (ar - cr) with ((ar - br) + (br - cr)) by lia.
    apply hexnorm_triangle.
Qed.

Lemma hexDistance_metric_witness :
  0 <= hexDistance (NewAxialCoord 0 0) (NewAxialCoord 2 1)
  /\ (hexDistance (NewAxialCoord 0 0) (NewAxialCoord 2 1) = 0
      <-> NewAxialCoord 0 0 = NewAxialCoord 2 1)
  /\ hexDistance (NewAxialCoord 0 0) (NewAxialCoord 2 1)
     = hexDistance (NewAxialCoord 2 1) (NewAxialCoord 0 0)
  /\ hexDistance (NewAxialCoord 0 0) (NewAxialCoord 9 7)
     <= hexDistance (NewAxialCoord 0 0) (NewAxialCoord 2 1)
        + hexDistance (NewAxialCoord 2 1) (NewAxialCoord 9 7).
Proof.
  apply (hexDistance_metric (NewAxialCoord 0 0) (NewAxialCoord 2 1)
                            (NewAxialCoord 9 7));
    split; cbn; lia.
Defined.

End Metric.

(** ** pkg/hex: [DistanceTo] on the wrapped grid *)

Section WorldDistance.

Import GoInt.

Context {V : Type}.

Lemma wrap_offsets_elem (d : Z) : d ∈ wrap_offsets <-> -1 <= d <= 1.
Proof. unfold wrap_offsets, range. rewrite elem_of_seqZ. lia. Qed.

(** The grids and coordinates on which no shift wraps around. *)
Definition small_grid (g : Grid V) : Prop :=
  Z.abs (Width (config g)) <= 2 ^ 58 /\ Z.abs (Height (config g)) <= 2 ^ 58.

Lemma axial_shift_exact (g : Grid V) (b : AxialCoord) (dq dr : Z) :
  small_grid g -> bounded (2 ^ 58) b ->
  -1 <= dq <= 1 -> -1 <= dr <= 1 ->
  axial_shift g b dq dr
  = NewAxialCoord (cQ b + dq * Width (config g)) (cR b + dr * Height (config g))
  /\ bounded (2 ^ 59) (axial_shift g b dq dr).
Proof.
  intros [Hw Hh] [Hq Hr] Hdq Hdr. unfold axial_shift, add, mul, bounded.
  assert (H58 : 2 ^ 58 = 288230376151711744) by reflexivity.
  assert (H59 : 2 ^ 59 = 576460752303423488) by reflexivity.
  rewrite H58 in *. rewrite H59.
  assert (Hin : forall z, Z.abs z <= 576460752303423488 -> in_int z)
    by (unfold in_int, min_int, max_int; lia).
  rewrite (wrap64_id (dq * _)) by (apply Hin; nia).
  rewrite (wrap64_id (dr * _)) by (apply Hin; nia).
  rewrite (wrap64_id (cQ b + _)) by (apply Hin; nia).
  rewrite (wrap64_id (cR b + _)) by (apply Hin; nia).
  cbn [cQ cR]. split; [reflexivity|]. split; nia.
Qed.

Lemma bounded_weaken (b : AxialCoord) : bounded (2 ^ 58) b -> bounded (2 ^ 59) b.
Proof. unfold bounded. intros [? ?]. split; lia. Qed.

(** A copy of [b] seen from [a] is as far as the opposite copy of [a]
    seen from [b]. *)
Lemma shift_mirror (g : Grid V) (a b : AxialCoord) (dq dr : Z) :
  small_grid g -> bounded (2 ^ 58) a -> bounded (2 ^ 58) b ->
  -1 <= dq <= 1 -> -1 <= dr <= 1 ->
  hexDistance b (axial_shift g a dq dr)
  = hexDistance a (axial_shift g b (- dq) (- dr)).
Proof.
  intros Hg Ha Hb Hdq Hdr.
  destruct (axial_shift_exact g a dq dr Hg Ha Hdq Hdr) as [E1 B1].
  destruct (axial_shift_exact g b (- dq) (- dr) Hg Hb ltac:(lia) ltac:(lia))
    as [E2 B2].
  rewrite !hexDistance_exact by auto using bounded_weaken.
  rewrite E1, E2. cbn [cQ cR]. rewrite <- hexnorm_opp. f_equal; lia.
Qed.

Lemma hexDistance_sym (a b : AxialCoord) :
  bounded (2 ^ 58) a -> bounded (2 ^ 58) b -> hexDistance a b = hexDistance b a.
Proof.
  intros Ha Hb. rewrite !hexDistance_exact by auto using bounded_weaken.
  rewrite <- hexnorm_opp. f_equal; lia.
Qed.

Lemma DistanceTo_world_le (g : Grid V) (a b : AxialCoord) :
  Topology_ (config g) = TopologyWorld ->
  small_grid g -> bounded (2 ^ 58) a -> bounded (2 ^ 58) b ->
  DistanceTo a b g <= DistanceTo b a g.
Proof.
  intros Ht Hg Ha Hb. rewrite !DistanceTo_world by exact Ht.
  destruct (min_loop_spec
              (fun dq dr => hexDistance a (axial_shift g b dq dr))
              wrap_offsets wrap_offsets (hexDistance a b)) as (A1 & A2 & _).
  destruct (min_loop_spec
              (fun dq dr => hexDistance b (axial_shift g a dq dr))
              wrap_offsets wrap_offsets (hexDistance b a)) as (_ & _ & B3).
  destruct B3 as [->|(dq & dr & Hdq & Hdr & ->)].
  - now rewrite (hexDistance_sym b a).
  - apply wrap_offsets_elem in Hdq, Hdr.
    rewrite shift_mirror by assumption.
    apply A2; apply wrap_offsets_elem; lia.
Qed.

Lemma DistanceTo_world_nonneg (g : Grid V) (a b : AxialCoord) :
  Topology_ (config g) = TopologyWorld ->
  small_grid g -> bounded (2 ^ 58) a -> bounded (2 ^ 58) b ->
  0 <= DistanceTo a b g <= hexDistance a b.
Proof.
  intros Ht Hg Ha Hb. rewrite !DistanceTo_world by exact Ht.
  destruct (min_loop_spec
              (fun dq dr => hexDistance a (axial_shift g b dq dr))
              wrap_offsets wrap_offsets (hexDistance a b)) as (A1 & _ & A3).
  split; [|exact A1].
  destruct A3 as [->|(dq & dr & Hdq & Hdr & ->)].
  - rewrite hexDistance_exact by auto using bounded_weaken.
    apply hexnorm_nonneg.
  - apply wrap_offsets_elem in Hdq, Hdr.
    destruct (axial_shift_exact g b dq dr Hg Hb Hdq Hdr) as [_ B].
    rewrite hexDistance_exact by auto using bounded_weaken.
    apply hexnorm_nonneg.
Qed.

(** X5. Under either topology, on a grid whose width and height are at
    most [2^58] and coordinates whose fields are at most [2^58] in
    absolute value, [DistanceTo] is symmetric and non-negative, and it
    never exceeds the plain [hexDistance]: wrapping can only shorten. *)
Theorem DistanceTo_symmetric (g : Grid V) (a b : AxialCoord) :
  small_grid g -> bounded (2 ^ 58) a -> bounded (2 ^ 58) b ->
  DistanceTo a b g = DistanceTo b a g
  /\ 0 <= DistanceTo a b g <= hexDistance a b.
Proof.
  intros Hg Ha Hb. destruct (Topology_ (config g)) eqn:Ht.
  - unfold DistanceTo. rewrite Ht. split; [now apply hexDistance_sym|].
    split; [|lia]. rewrite hexDistance_exact by auto using bounded_weaken.
    apply hexnorm_nonneg.
  - split; [|now apply DistanceTo_world_nonneg].
    apply Z.le_antisymm; now apply DistanceTo_world_le.
Qed.

End WorldDistance.

Lemma DistanceTo_symmetric_witness :
  let g := {| config := {| Width := 10; Height := 8; Topology_ := TopologyWorld |};
              tiles := @nil (list (option unit)); coordMap := ∅ |} in
  DistanceTo (NewAxialCoord 0 7) (NewAxialCoord 9 0) g
  = DistanceTo (NewAxialCoord 9 0) (NewAxialCoord 0 7) g
  /\ 0 <= DistanceTo (NewAxialCoord 0 7) (NewAxialCoord 9 0) g
     <= hexDistance (NewAxialCoord 0 7) (NewAxialCoord 9 0).
Proof.
  apply (DistanceTo_symmetric
           {| config := {| Width := 10; Height := 8; Topology_ := TopologyWorld |};
              tiles := @nil (list (option unit)); coordMap := ∅ |}
           (NewAxialCoord 0 7) (NewAxialCoord 9 0));
    split; cbn; lia.
Defined.

(** ** pkg/hex: the per-cell slots, [Get] and [Set] *)

(** [l[i]], which panics when [i] is out of range. *)
Definition index {A} (l : list A) (i : Z) : Result A :=
  if i <? 0 then Panicked index_out_of_range
  else match l !! Z.to_nat i with
       | Some x => Returned x
       | None => Panicked index_out_of_range
       end.

(** The first statement of [Get] and [Set]:
    [if Topology == TopologyWorld { coord = g.WrapCoord(coord) }]. *)
Definition wrap_if_world {V} (g : Grid V) (coord : AxialCoord)
    : Result AxialCoord :=
  match Topology_ (config g) with
  | TopologyWorld => WrapCoord g coord
  | TopologyRegion => Returned coord
  end.

(** [func (g *Grid) Get(coord AxialCoord) interface{}] *)
Definition Get {V} (g : Grid V) (coord : AxialCoord) : Result (option V) :=
  coord ← wrap_if_world g coord;
  valid ← IsValid g coord;
  if negb valid then Returned None
  else
    let '(col, row) := ToOffset coord in
    r ← index (tiles g) row;
    index r col.

(** [func (g *Grid) Set(coord AxialCoord, value interface{})]; the result
    is the grid after the store. *)
Definition Set_ {V} (g : Grid V) (coord : AxialCoord) (value : option V)
    : Result (Grid V) :=
  coord ← wrap_if_world g coord;
  valid ← IsValid g coord;
  if negb valid then Returned g
  else
    let '(col, row) := ToOffset coord in
    r ← index (tiles g) row;
    _ ← index r col;
    Returned {| config := config g;
                tiles := <[Z.to_nat row := <[Z.to_nat col := value]> r]> (tiles g);
                coordMap := coordMap g |}.

Section Slots.

Import GoInt.

Context {V : Type}.

(** What [NewGrid] establishes and [Set] keeps: the map of valid
    coordinates is the one of the rectangle, and the slots are [Height]
    rows of [Width] cells. *)
Definition grid_wf (g : Grid V) : Prop :=
  0 <= Width (config g) < 2 ^ 62 /\ 0 <= Height (config g) < 2 ^ 62
  /\ coordMap g = fill_coordMap (Width (config g)) (Height (config g))
  /\ length (tiles g) = Z.to_nat (Height (config g))
  /\ Forall (fun r => length r = Z.to_nat (Width (config g))) (tiles g).

(** A World grid on which [WrapCoord] can divide. *)
Definition wrappable (g : Grid V) : Prop :=
  Topology_ (config g) = TopologyWorld ->
  0 < Width (config g) /\ 0 < Height (config g).

(** The cell an access addresses: the wrapped coordinate on a World
    grid, the coordinate itself on a Region grid. *)
Definition effective (g : Grid V) (c : AxialCoord) : AxialCoord :=
  match Topology_ (config g) with
  | TopologyWorld => wrapped_of g c
  | TopologyRegion => c
  end.

(** The slot at an offset, [None] outside the rectangle. *)
Definition slot (t : list (list (option V))) (col row : Z) : option (option V) :=
  r ← t !! Z.to_nat row; r !! Z.to_nat col.

Lemma NewGrid_wf (cfg : GridConfig) (g : Grid V) :
  NewGrid cfg = Returned g ->
  0 <= Width cfg < 2 ^ 62 -> Height cfg < 2 ^ 62 -> grid_wf g.
Proof.
  intros Hg Hw Hh.
  destruct (NewGrid_returned cfg g Hg) as (Hc & Hm & Ht & Hh0 & _).
  unfold grid_wf. rewrite Hc, Hm, Ht. repeat split; try lia.
  - apply length_replicate.
  - apply Forall_replicate, length_replicate.
Qed.

Lemma fill_coordMap_get (cfg : GridConfig) (c : AxialCoord) :
  in_int (Width cfg) -> in_int (Height cfg) -> coord_ok c ->
  default false (fill_coordMap (Width cfg) (Height cfg) !! c) = in_bounds cfg c.
Proof.
  intros Hw Hh Hc. unfold in_bounds.
  pose proof (OffsetToAxial_ToOffset c Hc) as Hrt.
  destruct (ToOffset c) as [col row] eqn:E. cbn [fst snd] in Hrt.
  destruct (fill_coordMap (Width cfg) (Height cfg) !! c) as [v|] eqn:Hk.
  - apply fill_coordMap_inv in Hk as (-> & col' & row' & Hc' & Hr' & Hk).
    assert (ToOffset c = (col', row')) as E'.
    { rewrite Hk. apply ToOffset_OffsetToAxial;
        unfold in_int, min_int, max_int in *; lia. }
    rewrite E in E'. injection E' as -> ->. cbn.
    symmetry. apply andb_true_iff. split; [|lia].
    apply andb_true_iff. split; [|lia]. apply andb_true_iff. lia.
  - cbn. symmetry. apply not_true_is_false. intros Hb.
    apply andb_true_iff in Hb as [Hb Hb4]. apply andb_true_iff in Hb as [Hb Hb3].
    apply andb_true_iff in Hb as [Hb1 Hb2].
    rewrite <- Hrt, fill_coordMap_writes in Hk by lia. discriminate.
Qed.

Lemma in_bounds_iff (cfg : GridConfig) (c : AxialCoord) :
  in_bounds cfg c = true
  <-> 0 <= fst (ToOffset c) < Width cfg /\ 0 <= snd (ToOffset c) < Height cfg.
Proof.
  unfold in_bounds. destruct (ToOffset c) as [col row]. cbn [fst snd].
  rewrite !andb_true_iff. lia.
Qed.

Lemma index_lookup {A} (l : list A) (i : Z) (x : A) :
  0 <= i -> l !! Z.to_nat i = Some x -> index l i = Returned x.
Proof.
  intros Hi Hx. unfold index. destruct (Z.ltb_spec i 0); [lia|]. now rewrite Hx.
Qed.

Lemma wrapped_of_bounds (g : Grid V) (c : AxialCoord) :
  0 < Width (config g) -> 0 < Height (config g) ->
  ToOffset (wrapped_of g c)
  = (fst (ToOffset c) mod Width (config g), snd (ToOffset c) mod Height (config g))
    \/ ~ (Width (config g) < 2 ^ 62 /\ Height (config g) < 2 ^ 62).
Proof.
  intros Hw Hh.
  destruct (Z.lt_ge_cases (Width (config g)) (2 ^ 62)) as [Hw'|]; [|right; lia].
  destruct (Z.lt_ge_cases (Height (config g)) (2 ^ 62)) as [Hh'|]; [|right; lia].
  left. unfold wrapped_of. apply ToOffset_OffsetToAxial.
  - apply (in_int_below _ (Width (config g))); [apply Z.mod_pos_bound|]; lia.
  - apply (in_int_below _ (Height (config g))); [apply Z.mod_pos_bound|]; lia.
Qed.

(** The first two steps of [Get] and [Set] on a well-formed grid: the
    coordinate addressed, and whether it is valid. *)
Lemma access_cell (g : Grid V) (c : AxialCoord) :
  grid_wf g -> wrappable g -> coord_ok c ->
  wrap_if_world g c = Returned (effective g c)
  /\ coord_ok (effective g c)
  /\ IsValid g (effective g c) = Returned (in_bounds (config g) (effective g c))
  /\ IsValid g c = Returned (in_bounds (config g) (effective g c)).
Proof.
  intros (Hw & Hh & Hm & _) Hwr Hc.
  assert (Hiw : in_int (Width (config g)))
    by (unfold in_int, min_int, max_int; lia).
  assert (Hih : in_int (Height (config g)))
    by (unfold in_int, min_int, max_int; lia).
  unfold wrap_if_world, effective, IsValid, wrappable in *.
  destruct (Topology_ (config g)) eqn:Ht.
  - split; [reflexivity|]. split; [exact Hc|].
    unfold coordMap_get. rewrite Hm, fill_coordMap_get by assumption.
    split; reflexivity.
  - destruct (Hwr eq_refl) as [Hw0 Hh0].
    assert (Hok : coord_ok (wrapped_of g c)).
    { split; cbn; [|apply wrap64_range].
      apply (in_int_below _ (Width (config g))); [apply Z.mod_pos_bound|]; lia. }
    rewrite (WrapCoord_world g c Ht ltac:(lia) ltac:(lia) Hc).
    fold (wrapped_of g c).
    rewrite (WrapCoord_world g _ Ht ltac:(lia) ltac:(lia) Hok).
    destruct (wrapped_of_bounds g c Hw0 Hh0) as [E|]; [|lia].
    rewrite E. cbn [fst snd mbind Result_bind].
    rewrite !Z.mod_mod by lia. fold (wrapped_of g c).
    unfold coordMap_get. rewrite Hm, fill_coordMap_get by assumption.
    split; [reflexivity|]. split; [exact Hok|]. split; reflexivity.
Qed.

(** A valid access finds its row and its cell. *)
Lemma slot_in_bounds (g : Grid V) (c : AxialCoord) :
  grid_wf g -> in_bounds (config g) c = true ->
  exists r x, tiles g !! Z.to_nat (snd (ToOffset c)) = Some r
              /\ r !! Z.to_nat (fst (ToOffset c)) = Some x
              /\ 0 <= fst (ToOffset c) /\ 0 <= snd (ToOffset c).
Proof.
  intros (Hw & Hh & _ & Hlen & Hrows) Hb.
  apply in_bounds_iff in Hb as [Hcol Hrow].
  destruct (lookup_lt_is_Some_2 (tiles g) (Z.to_nat (snd (ToOffset c)))) as [r Hr];
    [lia|].
  pose proof (proj1 (Forall_lookup _ _) Hrows _ _ Hr) as Hlr. cbn in Hlr.
  destruct (lookup_lt_is_Some_2 r (Z.to_nat (fst (ToOffset c)))) as [x Hx];
    [lia|].
  exists r, x. repeat split; try assumption; lia.
Qed.

Lemma Get_value (g : Grid V) (c : AxialCoord) :
  grid_wf g -> wrappable g -> coord_ok c ->
  Get g c
  = Returned (if in_bounds (config g) (effective g c)
              then default None (slot (tiles g) (fst (ToOffset (effective g c)))
                                      (snd (ToOffset (effective g c))))
              else None).
Proof.
  intros Hwf Hwr Hc.
  destruct (access_cell g c Hwf Hwr Hc) as (E1 & Hok & E2 & _).
  unfold Get. rewrite E1. cbn [mbind Result_bind]. rewrite E2.
  cbn [mbind Result_bind].
  destruct (in_bounds (config g) (effective g c)) eqn:Hb; [|reflexivity].
  cbn [negb]. destruct (slot_in_bounds g _ Hwf Hb) as (r & x & Hr & Hx & H0c & H0r).
  destruct (ToOffset (effective g c)) as [col row]. cbn [fst snd] in *.
  rewrite (index_lookup _ _ _ H0r Hr). cbn [mbind Result_bind].
  rewrite (index_lookup _ _ _ H0c Hx).
  unfold slot. rewrite Hr. cbn. now rewrite Hx.
Qed.

(** The grid after a store at offset [(col, row)]. *)
Definition store (g : Grid V) (col row : Z) (value : option V) : Grid V :=
  {| config := config g;
     tiles := alter (fun r => <[Z.to_nat col := value]> r) (Z.to_nat row) (tiles g);
     coordMap := coordMap g |}.

Lemma Set_value (g : Grid V) (c : AxialCoord) (value : option V) :
  grid_wf g -> wrappable g -> coord_ok c ->
  Set_ g c value
  = Returned (if in_bounds (config g) (effective g c)
              then store g (fst (ToOffset (effective g c)))
                           (snd (ToOffset (effective g c))) value
              else g).
Proof.
  intros Hwf Hwr Hc.
  destruct (access_cell g c Hwf Hwr Hc) as (E1 & Hok & E2 & _).
  unfold Set_. rewrite E1. cbn [mbind Result_bind]. rewrite E2.
  cbn [mbind Result_bind].
  destruct (in_bounds (config g) (effective g c)) eqn:Hb; [|reflexivity].
  cbn [negb]. destruct (slot_in_bounds g _ Hwf Hb) as (r & x & Hr & Hx & H0c & H0r).
  destruct (ToOffset (effective g c)) as [col row]. cbn [fst snd] in *.
  rewrite (index_lookup _ _ _ H0r Hr). cbn [mbind Result_bind].
  rewrite (index_lookup _ _ _ H0c Hx). cbn [mbind Result_bind].
  unfold store. do 2 f_equal.
  apply list_eq. intros i. destruct (decide (i = Z.to_nat row)) as [->|Hne].
  - rewrite list_lookup_insert_eq by (eapply lookup_lt_Some; eauto).
    rewrite list_lookup_alter_eq, Hr. reflexivity.
  - rewrite list_lookup_insert_ne, list_lookup_alter_ne by congruence.
    reflexivity.
Qed.

Lemma store_wf (g : Grid V) (col row : Z) (value : option V) :
  grid_wf g -> grid_wf (store g col row value).
Proof.
  intros (Hw & Hh & Hm & Hlen & Hrows). unfold grid_wf, store. cbn.
  repeat split; try assumption; try lia.
  - now rewrite length_alter.
  - apply Forall_alter; [exact Hrows|]. intros r Hr. now rewrite length_insert.
Qed.

Lemma slot_store (g : Grid V) (col row col' row' : Z) (value : option V) :
  0 <= col -> 0 <= row -> 0 <= col' -> 0 <= row' ->
  is_Some (slot (tiles g) col row) ->
  slot (tiles (store g col row value)) col' row'
  = if decide (col' = col /\ row' = row) then Some value
    else slot (tiles g) col' row'.
Proof.
  intros Hc Hr Hc' Hr' [x Hx]. unfold slot, store in *. cbn [tiles].
  destruct (tiles g !! Z.to_nat row) as [r|] eqn:Er; [|discriminate].
  cbn in Hx.
  destruct (decide (row' = row)) as [->|Hne].
  - rewrite list_lookup_alter_eq, Er. cbn.
    destruct (decide (col' = col)) as [->|Hne].
    + rewrite list_lookup_insert_eq by (eapply lookup_lt_Some; eauto).
      rewrite decide_True by (split; reflexivity). reflexivity.
    + rewrite list_lookup_insert_ne by lia.
      rewrite decide_False by tauto. reflexivity.
  - rewrite list_lookup_alter_ne by lia.
    rewrite decide_False by tauto. reflexivity.
Qed.

End Slots.

Section SlotProperties.

Import GoInt.

Context {V : Type}.

Lemma effective_store (g : Grid V) (col row : Z) (v : option V) (c : AxialCoord) :
  effective (store g col row v) c = effective g c.
Proof. reflexivity. Qed.

Lemma coord_of_offset_inj (a b : AxialCoord) :
  coord_ok a -> coord_ok b -> ToOffset a = ToOffset b -> a = b.
Proof.
  intros Ha Hb E. rewrite <- (OffsetToAxial_ToOffset a Ha).
  rewrite <- (OffsetToAxial_ToOffset b Hb). now rewrite E.
Qed.

(** X6. On a well-formed grid (one built by [NewGrid], possibly after
    stores) [Set c v] never panics and keeps the grid well-formed.  When
    [c] is valid, a following [Get c] returns [v]; when it is not (Region
    topology only), [Set] leaves the grid as it was and [Get c] returns
    nil. *)
Theorem Set_then_Get (g : Grid V) (c : AxialCoord) (v : option V) :
  grid_wf g -> wrappable g -> coord_ok c ->
  exists valid g',
    IsValid g c = Returned valid
    /\ Set_ g c v = Returned g'
    /\ grid_wf g' /\ config g' = config g
    /\ Get g' c = Returned (if valid then v else None)
    /\ (valid = false -> g' = g).
Proof.
  intros Hwf Hwr Hc.
  destruct (access_cell g c Hwf Hwr Hc) as (_ & Hok & _ & Hv).
  exists (in_bounds (config g) (effective g c)).
  rewrite (Set_value g c v Hwf Hwr Hc).
  destruct (in_bounds (config g) (effective g c)) eqn:Hb.
  - eexists. split; [exact Hv|]. split; [reflexivity|].
    split; [now apply store_wf|]. split; [reflexivity|].
    split; [|discriminate].
    rewrite Get_value; [|now apply store_wf|exact Hwr|exact Hc].
    rewrite effective_store. cbn [config store]. rewrite Hb.
    destruct (slot_in_bounds g _ Hwf Hb) as (r & x & Hr & Hx & H0c & H0r).
    assert (Hs : is_Some (slot (tiles g) (fst (ToOffset (effective g c)))
                               (snd (ToOffset (effective g c)))))
      by (exists x; unfold slot; rewrite Hr; exact Hx).
    rewrite slot_store; try assumption.
    rewrite decide_True by (split; reflexivity). reflexivity.
  - exists g. split; [exact Hv|]. split; [reflexivity|].
    split; [exact Hwf|]. split; [reflexivity|]. split; [|reflexivity].
    rewrite Get_value by assumption. now rewrite Hb.
Qed.

(** X7. [Set c v] changes the slot of [c] only: [Get c'] returns what it
    returned before for every coordinate [c'] that addresses another
    cell. *)
Theorem Set_other_cell (g g' : Grid V) (c c' : AxialCoord) (v : option V) :
  grid_wf g -> wrappable g -> coord_ok c -> coord_ok c' ->
  effective g c' <> effective g c ->
  Set_ g c v = Returned g' ->
  Get g' c' = Get g c'.
Proof.
  intros Hwf Hwr Hc Hc' Hne Hset.
  rewrite (Set_value g c v Hwf Hwr Hc) in Hset. injection Hset as <-.
  destruct (in_bounds (config g) (effective g c)) eqn:Hb; [|reflexivity].
  destruct (access_cell g c Hwf Hwr Hc) as (_ & Hok & _).
  destruct (access_cell g c' Hwf Hwr Hc') as (_ & Hok' & _).
  rewrite Get_value; [|now apply store_wf|exact Hwr|exact Hc'].
  rewrite (Get_value g c') by assumption.
  rewrite effective_store. cbn [config store].
  destruct (in_bounds (config g) (effective g c')) eqn:Hb'; [|reflexivity].
  destruct (slot_in_bounds g _ Hwf Hb) as (r & x & Hr & Hx & H0c & H0r).
  destruct (slot_in_bounds g _ Hwf Hb') as (_ & _ & _ & _ & H0c' & H0r').
  assert (Hs : is_Some (slot (tiles g) (fst (ToOffset (effective g c)))
                             (snd (ToOffset (effective g c)))))
    by (exists x; unfold slot; rewrite Hr; exact Hx).
  rewrite slot_store; try assumption.
  rewrite decide_False; [reflexivity|]. intros [E1 E2]. apply Hne.
  apply coord_of_offset_inj; try assumption.
  apply injective_projections; [exact E1|exact E2].
Qed.

(** X8. Every slot of a grid fresh from [NewGrid] is nil: [Get] returns
    nil on every coordinate and does not panic. *)
Theorem Get_fresh_nil (cfg : GridConfig) (g : Grid V) (c : AxialCoord) :
  NewGrid cfg = Returned g ->
  0 <= Width cfg < 2 ^ 62 -> Height cfg < 2 ^ 62 ->
  (Topology_ cfg = TopologyWorld -> 0 < Width cfg /\ 0 < Height cfg) ->
  coord_ok c ->
  Get g c = Returned None.
Proof.
  intros Hg Hw Hh Hwr Hc.
  pose proof (NewGrid_wf cfg g Hg Hw Hh) as Hwf.
  destruct (NewGrid_returned cfg g Hg) as (Hcfg & _ & Ht & _).
  rewrite Get_value; [|exact Hwf|unfold wrappable; now rewrite Hcfg|exact Hc].
  destruct (in_bounds (config g) (effective g c)); [|reflexivity].
  f_equal. unfold slot. rewrite Ht.
  destruct (replicate _ _ !! _) as [r|] eqn:Er; [|reflexivity].
  apply lookup_replicate in Er as [-> _]. cbn.
  destruct (replicate _ _ !! _) as [x|] eqn:Ex; [|reflexivity].
  apply lookup_replicate in Ex as [-> _]. reflexivity.
Qed.

End SlotProperties.

Lemma Set_then_Get_witness :
  let g := {| config := {| Width := 5; Height := 3; Topology_ := TopologyRegion |};
              tiles := replicate 3 (replicate 5 (@None string));
              coordMap := fill_coordMap 5 3 |} in
  exists valid g',
    IsValid g (NewAxialCoord 2 1) = Returned valid
    /\ Set_ g (NewAxialCoord 2 1) (Some "test_value"%string) = Returned g'
    /\ grid_wf g' /\ config g' = config g
    /\ Get g' (NewAxialCoord 2 1)
       = Returned (if valid then Some "test_value"%string else None)
    /\ (valid = false -> g' = g).
Proof.
  apply (Set_then_Get
           {| config := {| Width := 5; Height := 3; Topology_ := TopologyRegion |};
              tiles := replicate 3 (replicate 5 (@None string));
              coordMap := fill_coordMap 5 3 |}).
  - unfold grid_wf. cbn. repeat split; try lia. repeat constructor.
  - intros Ht. discriminate Ht.
  - split; cbn; unfold GoInt.in_int, GoInt.min_int, GoInt.max_int; lia.
Defined.

Lemma Set_other_cell_witness :
  let g := {| config := {| Width := 5; Height := 3; Topology_ := TopologyRegion |};
              tiles := replicate 3 (replicate 5 (@None string));
              coordMap := fill_coordMap 5 3 |} in
  Get (store g 2 2 (Some "test_value"%string)) (NewAxialCoord 0 0)
  = Get g (NewAxialCoord 0 0).
Proof.
  apply (Set_other_cell
           {| config := {| Width := 5; Height := 3; Topology_ := TopologyRegion |};
              tiles := replicate 3 (replicate 5 (@None string));
              coordMap := fill_coordMap 5 3 |}
           _ (NewAxialCoord 2 1) (NewAxialCoord 0 0) (Some "test_value"%string)).
  - unfold grid_wf. cbn. repeat split; try lia. repeat constructor.
  - intros Ht. discriminate Ht.
  - split; cbn; unfold GoInt.in_int, GoInt.min_int, GoInt.max_int; lia.
  - split; cbn; unfold GoInt.in_int, GoInt.min_int, GoInt.max_int; lia.
  - cbn. discriminate.
  - vm_compute. reflexivity.
Defined.

Lemma Get_fresh_nil_witness :
  Get {| config := {| Width := 5; Height := 3; Topology_ := TopologyWorld |};
         tiles := replicate 3 (replicate 5 (@None string));
         coordMap := fill_coordMap 5 3 |} (NewAxialCoord (-4) 11)
  = Returned None.
Proof.
  apply (Get_fresh_nil
           {| Width := 5; Height := 3; Topology_ := TopologyWorld |}).
  - reflexivity.
  - cbn; lia.
  - cbn; lia.
  - intros _. cbn; lia.
  - split; cbn; unfold GoInt.in_int, GoInt.min_int, GoInt.max_int; lia.
Defined.

(** * internal/noise *)

(** ** Sizes of the form [2^k + 1] *)

(** [func isPowerOfTwoPlusOne(n int) bool] *)
Definition isPowerOfTwoPlusOne (n : Z) : bool :=
  if n <? 3 then false
  else
    let n := GoInt.sub n 1 in
    (0 <? n) && (GoInt.and n (GoInt.sub n 1) =? 0).

(** The loop [for n+1 < size { n *= 2 }]; [None] when the fuel runs out
    before the loop ends. *)
Fixpoint next_loop (fuel : nat) (n size : Z) : option Z :=
  match fuel with
  | O => None
  | S fuel =>
      if GoInt.add n 1 <? size then next_loop fuel (GoInt.mul n 2) size
      else Some n
  end.

(** [func nextPowerOfTwoPlusOne(size int) int], the loop run for at most
    [fuel] rounds. *)
Definition nextPowerOfTwoPlusOne_fuel (fuel : nat) (size : Z) : option Z :=
  if size <=? 1 then Some 3
  else if isPowerOfTwoPlusOne size then Some size
  else n ← next_loop fuel 2 size; Some (GoInt.add n 1).

(** Sixty-four rounds: more than the loop can take when it ends at
    all. *)
Definition nextPowerOfTwoPlusOne (size : Z) : option Z :=
  nextPowerOfTwoPlusOne_fuel 64 size.

(** [func max(a, b int) int] *)
Definition max (a b : Z) : Z := if b <? a then a else b.

Example isPowerOfTwoPlusOne_test_table :
  map isPowerOfTwoPlusOne [1; 2; 3; 5; 9; 17; 33; 65; 129; 257; 10; 16; 128]
  = [false; false; true; true; true; true; true; true; true; true;
     false; false; false].
Proof. reflexivity. Qed.

Example nextPowerOfTwoPlusOne_test_table :
  map nextPowerOfTwoPlusOne [1; 3; 4; 8; 128]
  = [Some 3; Some 3; Some 5; Some 9; Some 129].
Proof. reflexivity. Qed.

Section Sizes.

Import GoInt.

Lemma land_pred_pow2 (m : Z) :
  0 < m -> (Z.land m (m - 1) = 0 <-> exists k, 0 <= k /\ m = 2 ^ k).
Proof.
  intros Hm. split.
  - intros Hl. exists (Z.log2 m). split; [apply Z.log2_nonneg|].
    destruct (Z.log2_spec m Hm) as [Hlo Hhi].
    destruct (Z.eq_dec m (2 ^ Z.log2 m)) as [E|Hne]; [exact E|exfalso].
    assert (Hlog : Z.log2 (m - 1) = Z.log2 m).
    { apply Z.log2_unique; [apply Z.log2_nonneg|]. lia. }
    assert (Hb1 : Z.testbit m (Z.log2 m) = true) by (apply Z.bit_log2; lia).
    assert (Hb2 : Z.testbit (m - 1) (Z.log2 m) = true).
    { rewrite <- Hlog. apply Z.bit_log2.
      pose proof (Z.pow_pos_nonneg 2 (Z.log2 m) ltac:(lia) (Z.log2_nonneg m)).
      lia. }
    assert (Hb : Z.testbit (Z.land m (m - 1)) (Z.log2 m) = true)
      by (rewrite Z.land_spec, Hb1, Hb2; reflexivity).
    rewrite Hl, Z.bits_0 in Hb. discriminate.
  - intros (k & Hk & ->).
    replace (2 ^ k - 1) with (Z.ones k) by (rewrite Z.ones_equiv; lia).
    rewrite Z.land_ones by exact Hk. apply Z.mod_same.
    pose proof (Z.pow_pos_nonneg 2 k ltac:(lia) Hk). lia.
Qed.

Lemma isPowerOfTwoPlusOne_spec (n : Z) :
  in_int n ->
  (isPowerOfTwoPlusOne n = true <-> exists k, 1 <= k /\ n = 2 ^ k + 1).
Proof.
  intros Hn. unfold isPowerOfTwoPlusOne, sub, and.
  destruct (Z.ltb_spec n 3) as [H3|H3].
  - split; [discriminate|]. intros (k & Hk & ->).
    pose proof (Z.pow_le_mono_r 2 1 k ltac:(lia) Hk). lia.
  - unfold in_int, min_int, max_int in Hn.
    rewrite (wrap64_id (n - 1)) by (unfold in_int, min_int, max_int; lia).
    rewrite (wrap64_id (n - 1 - 1)) by (unfold in_int, min_int, max_int; lia).
    rewrite andb_true_iff, Z.ltb_lt, Z.eqb_eq.
    rewrite (land_pred_pow2 (n - 1)) by lia. split.
    + intros (_ & k & Hk & E). exists k. split; [|lia].
      destruct (Z.eq_dec k 0) as [->|]; [|lia]. cbn in E. lia.
    + intros (k & Hk & ->). split; [lia|]. exists k. split; lia.
Qed.

(** X9. For every [int] [n], [isPowerOfTwoPlusOne n] is true exactly when
    [n = 2^k + 1] for some [k >= 1]; so 3 is the least accepted size, and
    2 (which is [2^0 + 1]) is refused. *)
Theorem isPowerOfTwoPlusOne_iff (n : Z) :
  GoInt.in_int n ->
  (isPowerOfTwoPlusOne n = true <-> exists k, 1 <= k /\ n = 2 ^ k + 1)
  /\ isPowerOfTwoPlusOne 2 = false.
Proof.
  intros Hn. split; [now apply isPowerOfTwoPlusOne_spec|reflexivity].
Qed.

End Sizes.

Lemma isPowerOfTwoPlusOne_iff_witness :
  (isPowerOfTwoPlusOne 129 = true <-> exists k, 1 <= k /\ 129 = 2 ^ k + 1)
  /\ isPowerOfTwoPlusOne 2 = false.
Proof.
  apply (isPowerOfTwoPlusOne_iff 129).
  unfold GoInt.in_int, GoInt.min_int, GoInt.max_int. lia.
Defined.

Section NextSize.

Import GoInt.

Lemma pow2_le_62 (j : Z) : 0 <= j <= 62 -> 0 < 2 ^ j <= 2 ^ 62.
Proof.
  intros Hj. split; [apply Z.pow_pos_nonneg; lia|].
  apply Z.pow_le_mono_r; lia.
Qed.

Lemma pow2_double (j : Z) : 0 <= j -> 2 ^ j * 2 = 2 ^ (j + 1).
Proof. intros Hj. rewrite Z.pow_add_r by lia. reflexivity. Qed.

Lemma next_loop_ends (fuel : nat) (j size : Z) :
  1 <= j <= 62 -> 64 <= Z.of_nat fuel + j -> size <= 2 ^ 62 + 1 ->
  exists j', j <= j' <= 62
             /\ next_loop fuel (2 ^ j) size = Some (2 ^ j')
             /\ size <= 2 ^ j' + 1
             /\ (j' = j \/ 2 ^ (j' - 1) + 1 < size).
Proof.
  revert j. induction fuel as [|fuel IH]; intros j Hj Hf Hs; [lia|].
  pose proof (pow2_le_62 j ltac:(lia)) as Hp.
  assert (H62 : 2 ^ 62 = 4611686018427387904) by reflexivity.
  cbn [next_loop]. unfold add, mul.
  rewrite (wrap64_id (2 ^ j + 1)) by (unfold in_int, min_int, max_int; lia).
  destruct (Z.ltb_spec (2 ^ j + 1) size) as [Hlt|Hge].
  - assert (Hj62 : j < 62).
    { destruct (Z.eq_dec j 62) as [->|]; lia. }
    rewrite pow2_double by lia.
    pose proof (pow2_le_62 (j + 1) ltac:(lia)) as Hp'.
    rewrite wrap64_id by (unfold in_int, min_int, max_int; lia).
    destruct (IH (j + 1) ltac:(lia) ltac:(lia) Hs) as (j' & Hj' & E & Hle & Hmin).
    exists j'. split; [lia|]. split; [exact E|]. split; [exact Hle|].
    right. destruct Hmin as [->|Hmin]; [|exact Hmin].
    now replace (j + 1 - 1) with j by lia.
  - exists j. split; [lia|]. split; [reflexivity|]. split; [lia|now left].
Qed.

(** The values the loop variable runs through once [size] is beyond
    [2^62 + 1]: the powers of two, then [min_int], then 0 for ever. *)
Definition runaway (n : Z) : Prop :=
  (exists j, 1 <= j <= 62 /\ n = 2 ^ j) \/ n = min_int \/ n = 0.

Lemma next_loop_runs_away (fuel : nat) (n size : Z) :
  runaway n -> 2 ^ 62 + 1 < size -> next_loop fuel n size = None.
Proof.
  intros Hn Hs. revert n Hn. induction fuel as [|fuel IH]; intros n Hn;
    [reflexivity|].
  assert (H62 : 2 ^ 62 = 4611686018427387904) by reflexivity.
  cbn [next_loop]. destruct Hn as [(j & Hj & ->)|[->| ->]].
  - pose proof (pow2_le_62 j ltac:(lia)) as Hp. unfold add.
    rewrite wrap64_id by (unfold in_int, min_int, max_int; lia).
    destruct (Z.ltb_spec (2 ^ j + 1) size); [|lia].
    apply IH. destruct (Z.eq_dec j 62) as [->|Hne].
    + right; left. reflexivity.
    + left. exists (j + 1). split; [lia|]. unfold mul.
      rewrite pow2_double by lia.
      pose proof (pow2_le_62 (j + 1) ltac:(lia)) as Hp'.
      apply wrap64_id. unfold in_int, min_int, max_int. lia.
  - change (add min_int 1) with (-9223372036854775807).
    destruct (Z.ltb_spec (-9223372036854775807) size); [|lia].
    apply IH. right; right. reflexivity.
  - change (add 0 1) with 1.
    destruct (Z.ltb_spec 1 size); [|lia].
    apply IH. right; right. reflexivity.
Qed.

Lemma isPowerOfTwoPlusOne_pow (j : Z) :
  1 <= j <= 62 -> isPowerOfTwoPlusOne (2 ^ j + 1) = true.
Proof.
  intros Hj. pose proof (pow2_le_62 j ltac:(lia)) as Hp.
  assert (H62 : 2 ^ 62 = 4611686018427387904) by reflexivity.
  apply isPowerOfTwoPlusOne_spec; [unfold in_int, min_int, max_int; lia|].
  exists j. split; lia.
Qed.

Lemma nextPowerOfTwoPlusOne_least (size : Z) :
  in_int size -> size <= 2 ^ 62 + 1 ->
  exists r, nextPowerOfTwoPlusOne size = Some r
            /\ isPowerOfTwoPlusOne r = true
            /\ size <= r
            /\ r <= 2 ^ 62 + 1
            /\ forall m, in_int m -> isPowerOfTwoPlusOne m = true ->
                         size <= m -> r <= m.
Proof.
  intros Hi Hs. unfold nextPowerOfTwoPlusOne, nextPowerOfTwoPlusOne_fuel.
  assert (H62 : 2 ^ 62 = 4611686018427387904) by reflexivity.
  assert (Hmin3 : forall m, in_int m -> isPowerOfTwoPlusOne m = true -> 3 <= m).
  { intros m Hm Hp. apply isPowerOfTwoPlusOne_spec in Hp as (k & Hk & ->);
      [|exact Hm].
    pose proof (Z.pow_le_mono_r 2 1 k ltac:(lia) Hk). lia. }
  destruct (Z.leb_spec size 1) as [H1|H1].
  - exists 3. repeat split; try reflexivity; try lia. intros m Hm Hp _.
    now apply Hmin3.
  - destruct (isPowerOfTwoPlusOne size) eqn:Hp.
    + exists size. repeat split; try assumption; try lia.
    + destruct (next_loop_ends 64 1 size ltac:(lia) ltac:(lia) Hs)
        as (j & Hj & E & Hle & Hmin).
      change (2 ^ 1) with 2 in E. rewrite E. cbn [mbind option_bind].
      pose proof (pow2_le_62 j ltac:(lia)) as Hpj. unfold add.
      rewrite wrap64_id by (unfold in_int, min_int, max_int; lia).
      exists (2 ^ j + 1). split; [reflexivity|].
      split; [apply isPowerOfTwoPlusOne_pow; lia|].
      split; [exact Hle|]. split; [lia|].
      intros m Hm Hpm Hsm.
      destruct Hmin as [->|Hmin]; [apply (Hmin3 m Hm Hpm)|].
      apply isPowerOfTwoPlusOne_spec in Hpm as (k & Hk & ->); [|exact Hm].
      destruct (Z.lt_ge_cases k j) as [Hkj|Hkj].
      * pose proof (Z.pow_le_mono_r 2 k (j - 1) ltac:(lia) ltac:(lia)). lia.
      * pose proof (Z.pow_le_mono_r 2 j k ltac:(lia) ltac:(lia)). lia.
Qed.

(** X10. For every [size <= 2^62 + 1], [nextPowerOfTwoPlusOne size]
    returns the least [r >= size] that [isPowerOfTwoPlusOne] accepts.  For
    a larger [size] its loop never ends: the doubling wraps around to 0
    and stays below [size], whatever the number of rounds. *)
Theorem nextPowerOfTwoPlusOne_correct (size : Z) :
  GoInt.in_int size ->
  if size <=? 2 ^ 62 + 1 then
    exists r, nextPowerOfTwoPlusOne size = Some r
              /\ isPowerOfTwoPlusOne r = true
              /\ size <= r
              /\ forall m, GoInt.in_int m -> isPowerOfTwoPlusOne m = true ->
                           size <= m -> r <= m
  else forall fuel, nextPowerOfTwoPlusOne_fuel fuel size = None.
Proof.
  intros Hi. destruct (Z.leb_spec size (2 ^ 62 + 1)) as [Hs|Hs].
  - destruct (nextPowerOfTwoPlusOne_least size Hi Hs) as (r & E & Hp & Hle & _ & Hm).
    exists r. auto.
  - intros fuel. unfold nextPowerOfTwoPlusOne_fuel.
    assert (H62 : 2 ^ 62 = 4611686018427387904) by reflexivity.
    destruct (Z.leb_spec size 1); [lia|].
    destruct (isPowerOfTwoPlusOne size) eqn:Hp.
    + apply isPowerOfTwoPlusOne_spec in Hp as (k & Hk & ->); [|exact Hi].
      exfalso. unfold in_int, min_int, max_int in Hi.
      destruct (Z.lt_ge_cases k 63) as [Hk63|Hk63].
      * pose proof (Z.pow_le_mono_r 2 k 62 ltac:(lia) ltac:(lia)). lia.
      * pose proof (Z.pow_le_mono_r 2 63 k ltac:(lia) ltac:(lia)). lia.
    + rewrite next_loop_runs_away; [reflexivity| |exact Hs].
      left. exists 1. split; [lia|reflexivity].
Qed.

End NextSize.

Lemma nextPowerOfTwoPlusOne_correct_witness :
  exists r, nextPowerOfTwoPlusOne 100 = Some r
            /\ isPowerOfTwoPlusOne r = true
            /\ 100 <= r
            /\ forall m, GoInt.in_int m -> isPowerOfTwoPlusOne m = true ->
                         100 <= m -> r <= m.
Proof.
  apply (nextPowerOfTwoPlusOne_correct 100).
  unfold GoInt.in_int, GoInt.min_int, GoInt.max_int. lia.
Defined.

(** ** Loops and arrays *)

(** A loop over [l] whose body may panic: the state after the last
    round, or the first panic. *)
Definition foldM {S A : Type} (body : S -> A -> Result S) (s : S) (l : list A)
    : Result S :=
  foldl (fun acc a => s ← acc; body s a) (Returned s) l.

(** The values of [i] in [for i := lo; i < hi; i += step], for
    [step >= 1]: at most [hi - lo] of them. *)
Fixpoint for_loop (fuel : nat) (i hi step : Z) : list Z :=
  match fuel with
  | O => []
  | S fuel =>
      if i <? hi then i :: for_loop fuel (GoInt.add i step) hi step else []
  end.

Definition for_range (lo hi step : Z) : list Z :=
  for_loop (Z.to_nat (hi - lo)) lo hi step.

(** [[][]float64] *)
Abbreviation Heightmap := (list (list Q)).

(** [hm[y][x]] *)
Definition hm_get (hm : Heightmap) (y x : Z) : Result Q :=
  r ← index hm y; index r x.

(** [hm[y][x] = v] *)
Definition hm_set (hm : Heightmap) (y x : Z) (v : Q) : Result Heightmap :=
  r ← index hm y;
  _ ← index r x;
  Returned (<[Z.to_nat y := <[Z.to_nat x := v]> r]> hm).

(** [make([][]float64, h)] with every row [make([]float64, w)]. *)
Definition make_heightmap (w h : Z) : Result Heightmap :=
  if h <? 0 then Panicked makeslice_len
  else if (0 <? h) && (w <? 0) then Panicked makeslice_len
  else Returned (replicate (Z.to_nat h) (replicate (Z.to_nat w) 0%Q)).

(** ** Diamond-Square *)

Definition invalid_size : string :=
  "DiamondSquare: size must be (2^n + 1), e.g., 129, 257, 513"%string.
Definition out_of_fuel : string := "loop bound of the model exceeded"%string.

(** The edge rule of [diamondAverage]: below 0 becomes [size - 1], at or
    above [size] becomes 0. *)
Definition edge_wrap (n size : Z) : Z :=
  if n <? 0 then GoInt.sub size 1
  else if size <=? n then 0
  else n.

(** [func diamondAverage(heightmap [][]float64, x, y, halfStep, size int) float64] *)
Definition diamondAverage (heightmap : Heightmap) (x y halfStep size : Z)
    : Result Q :=
  let neighbors :=
    [(x, GoInt.sub y halfStep); (x, GoInt.add y halfStep);
     (GoInt.sub x halfStep, y); (GoInt.add x halfStep, y)] in
  acc ← foldM (fun (acc : Z * Q) (neighbor : Z * Z) =>
                 let '(count, sum) := acc in
                 let nx := edge_wrap (fst neighbor) size in
                 let ny := edge_wrap (snd neighbor) size in
                 if (0 <=? nx) && (nx <? size) && (0 <=? ny) && (ny <? size)
                 then v ← hm_get heightmap ny nx;
                      Returned (GoInt.add count 1, (sum + v)%Q)
                 else Returned (count, sum))
              (0, 0%Q) neighbors;
  let '(count, sum) := acc in
  if 0 <? count then Returned (sum / inject_Z count)%Q else Returned 0%Q.

Section DiamondSquare.

(** The generator of [math/rand]: [rand.New(rand.NewSource(seed))] and
    [rng.Float64()], which returns a sample and the generator's next
    state. *)
Variable Rng : Type.
Variable NewSource : Z -> Rng.
Variable Float64 : Rng -> Q * Rng.

(** [rng.Float64()*2 - 1] *)
Definition uniform (rng : Rng) : Q * Rng :=
  let '(u, rng) := Float64 rng in ((u * 2 - 1)%Q, rng).

(** One cell of the diamond step. *)
Definition diamond_cell (halfStep : Z) (scale : Q) (y : Z)
    (st : Heightmap * Rng) (x : Z) : Result (Heightmap * Rng) :=
  let '(heightmap, rng) := st in
  a ← hm_get heightmap (GoInt.sub y halfStep) (GoInt.sub x halfStep);
  b ← hm_get heightmap (GoInt.sub y halfStep) (GoInt.add x halfStep);
  c ← hm_get heightmap (GoInt.add y halfStep) (GoInt.sub x halfStep);
  d ← hm_get heightmap (GoInt.add y halfStep) (GoInt.add x halfStep);
  let avg := ((a + b + c + d) / 4)%Q in
  let '(u, rng) := uniform rng in
  heightmap ← hm_set heightmap y x (avg + u * scale)%Q;
  Returned (heightmap, rng).

(** One cell of the square step. *)
Definition square_cell (halfStep size : Z) (scale : Q) (y : Z)
    (st : Heightmap * Rng) (x : Z) : Result (Heightmap * Rng) :=
  let '(heightmap, rng) := st in
  avg ← diamondAverage heightmap x y halfStep size;
  let '(u, rng) := uniform rng in
  heightmap ← hm_set heightmap y x (avg + u * scale)%Q;
  Returned (heightmap, rng).

(** The body of [for stepSize > 1]: the diamond step, then the square
    step. *)
Definition round (size stepSize : Z) (scale : Q) (st : Heightmap * Rng)
    : Result (Heightmap * Rng) :=
  let halfStep := GoInt.quo stepSize 2 in
  st ← foldM (fun st y =>
                foldM (diamond_cell halfStep scale y) st
                      (for_range halfStep size stepSize))
             st (for_range halfStep size stepSize);
  foldM (fun st y =>
           x0 ← go_rem (GoInt.add y halfStep) stepSize;
           foldM (square_cell halfStep size scale y) st
                 (for_range x0 size stepSize))
        st (for_range 0 size halfStep).

(** [for stepSize > 1 { ...; stepSize /= 2; scale *= roughness }] *)
Fixpoint rounds (fuel : nat) (size stepSize : Z) (scale roughness : Q)
    (st : Heightmap * Rng) : Result (Heightmap * Rng) :=
  if 1 <? stepSize then
    match fuel with
    | O => Panicked out_of_fuel
    | S fuel =>
        st ← round size stepSize scale st;
        rounds fuel size (GoInt.quo stepSize 2) (scale * roughness)%Q
               roughness st
    end
  else Returned st.

(** The four corner stores, in the order of the source. *)
Definition seed_corners (size : Z) (st : Heightmap * Rng)
    : Result (Heightmap * Rng) :=
  foldM (fun (st : Heightmap * Rng) (corner : Z * Z) =>
           let '(heightmap, rng) := st in
           let '(u, rng) := uniform rng in
           heightmap ← hm_set heightmap (fst corner) (snd corner) u;
           Returned (heightmap, rng))
        st
        [(0, 0); (0, GoInt.sub size 1); (GoInt.sub size 1, 0);
         (GoInt.sub size 1, GoInt.sub size 1)].

(** [func DiamondSquare(size int, roughness float64, seed int64) [][]float64] *)
Definition DiamondSquare (size : Z) (roughness : Q) (seed : Z)
    : Result Heightmap :=
  if negb (isPowerOfTwoPlusOne size) then Panicked invalid_size
  else
    let rng := NewSource seed in
    heightmap ← make_heightmap size size;
    st ← seed_corners size (heightmap, rng);
    let stepSize := GoInt.sub size 1 in
    let scale := roughness in
    st ← rounds (Z.to_nat stepSize) size stepSize scale roughness st;
    Returned (fst st).

End DiamondSquare.

(** ** Properties: Diamond-Square stays inside its array *)

Section LoopFacts.

Import GoInt.

Lemma foldM_cons {S A} (body : S -> A -> Result S) (s : S) (a : A) (l : list A) :
  foldM body s (a :: l) = (s' ← body s a; foldM body s' l).
Proof.
  unfold foldM. cbn [foldl mbind Result_bind].
  destruct (body s a) as [s'|msg]; [reflexivity|].
  cbn. induction l as [|b l IH]; [reflexivity|exact IH].
Qed.

(** A loop whose body returns and keeps [I] returns and keeps [I]. *)
Lemma foldM_inv {S A} (body : S -> A -> Result S) (I : S -> Prop)
    (l : list A) (s : S) :
  I s ->
  (forall s a, a ∈ l -> I s -> exists s', body s a = Returned s' /\ I s') ->
  exists s', foldM body s l = Returned s' /\ I s'.
Proof.
  revert s. induction l as [|a l IH]; intros s Hs Hbody.
  - exists s. split; [reflexivity|exact Hs].
  - rewrite foldM_cons.
    destruct (Hbody s a ltac:(left) Hs) as (s1 & E & Hs1). rewrite E. cbn.
    apply IH; [exact Hs1|]. intros s2 b Hb. apply Hbody. now right.
Qed.

Lemma for_loop_elem (fuel : nat) (i hi step e : Z) :
  0 <= step <= 2 ^ 61 -> hi <= 2 ^ 61 + 1 -> - 2 ^ 61 <= i ->
  e ∈ for_loop fuel i hi step ->
  i <= e < hi /\ exists k, 0 <= k /\ e = i + k * step.
Proof.
  intros Hstep Hhi. revert i.
  assert (H61 : 2 ^ 61 = 2305843009213693952) by reflexivity.
  induction fuel as [|fuel IH]; intros i Hi He; cbn in He.
  - inversion He.
  - destruct (Z.ltb_spec i hi) as [Hlt|]; [|inversion He].
    apply elem_of_cons in He as [->|He].
    + split; [lia|]. exists 0. lia.
    + unfold add in He.
      rewrite wrap64_id in He by (unfold in_int, min_int, max_int; lia).
      apply IH in He as ([H1 H2] & k & Hk & ->); [|lia].
      split; [lia|]. exists (k + 1). lia.
Qed.

Lemma for_range_elem (lo hi step e : Z) :
  0 <= step <= 2 ^ 61 -> hi <= 2 ^ 61 + 1 -> 0 <= lo ->
  e ∈ for_range lo hi step ->
  lo <= e < hi /\ exists k, 0 <= k /\ e = lo + k * step.
Proof.
  intros Hstep Hhi Hlo. apply for_loop_elem; try assumption.
  assert (H61 : 2 ^ 61 = 2305843009213693952) by reflexivity. lia.
Qed.

(** An array of [h] rows of [w] cells. *)
Definition dims (w h : Z) (hm : Heightmap) : Prop :=
  length hm = Z.to_nat h /\ Forall (fun r => length r = Z.to_nat w) hm.

Lemma make_heightmap_dims (w h : Z) :
  0 <= w -> 0 <= h ->
  exists hm, make_heightmap w h = Returned hm /\ dims w h hm.
Proof.
  intros Hw Hh. unfold make_heightmap.
  destruct (Z.ltb_spec h 0); [lia|].
  destruct (Z.ltb_spec w 0); [lia|]. rewrite andb_false_r.
  eexists. split; [reflexivity|]. split.
  - apply length_replicate.
  - apply Forall_replicate, length_replicate.
Qed.

Lemma hm_get_returns (w h : Z) (hm : Heightmap) (y x : Z) :
  dims w h hm -> 0 <= y < h -> 0 <= x < w ->
  exists v, hm_get hm y x = Returned v.
Proof.
  intros [Hlen Hrows] Hy Hx. unfold hm_get.
  destruct (lookup_lt_is_Some_2 hm (Z.to_nat y)) as [r Hr]; [lia|].
  pose proof (proj1 (Forall_lookup _ _) Hrows _ _ Hr) as Hlr. cbn in Hlr.
  destruct (lookup_lt_is_Some_2 r (Z.to_nat x)) as [v Hv]; [lia|].
  rewrite (index_lookup hm y r) by (lia || assumption). cbn.
  exists v. apply index_lookup; [lia|exact Hv].
Qed.

Lemma hm_set_returns (w h : Z) (hm : Heightmap) (y x : Z) (v : Q) :
  dims w h hm -> 0 <= y < h -> 0 <= x < w ->
  exists hm', hm_set hm y x v = Returned hm' /\ dims w h hm'.
Proof.
  intros [Hlen Hrows] Hy Hx. unfold hm_set.
  destruct (lookup_lt_is_Some_2 hm (Z.to_nat y)) as [r Hr]; [lia|].
  pose proof (proj1 (Forall_lookup _ _) Hrows _ _ Hr) as Hlr. cbn in Hlr.
  destruct (lookup_lt_is_Some_2 r (Z.to_nat x)) as [v0 Hv]; [lia|].
  rewrite (index_lookup hm y r) by (lia || assumption). cbn.
  rewrite (index_lookup r x v0) by (lia || assumption). cbn.
  eexists. split; [reflexivity|]. split.
  - now rewrite length_insert.
  - apply Forall_insert; [exact Hrows|]. now rewrite length_insert.
Qed.

Lemma diamondAverage_returns (size : Z) (hm : Heightmap) (x y halfStep : Z) :
  dims size size hm ->
  exists v, diamondAverage hm x y halfStep size = Returned v.
Proof.
  intros Hd. unfold diamondAverage.
  match goal with |- context [foldM ?b ?s ?l] =>
    destruct (foldM_inv b (fun _ => True) l s I) as (acc & E & _)
  end.
  - intros [count sum] [nx ny] _ _. cbn [fst snd].
    destruct ((0 <=? edge_wrap nx size) && (edge_wrap nx size <? size)
              && (0 <=? edge_wrap ny size) && (edge_wrap ny size <? size))
      eqn:Hb.
    + apply andb_true_iff in Hb as [Hb H4]. apply andb_true_iff in Hb as [Hb H3].
      apply andb_true_iff in Hb as [H1 H2].
      destruct (hm_get_returns size size hm (edge_wrap ny size)
                  (edge_wrap nx size) Hd ltac:(lia) ltac:(lia)) as [v Ev].
      rewrite Ev. cbn. eauto.
    + eauto.
  - rewrite E. cbn. destruct acc as [count sum].
    destruct (0 <? count); eauto.
Qed.

End LoopFacts.

Section DiamondSquareFacts.

Import GoInt.

Context (Rng : Type) (NewSource : Z -> Rng) (Float64 : Rng -> Q * Rng).

Lemma small_in_int (z : Z) : - 2 ^ 62 <= z <= 2 ^ 62 -> in_int z.
Proof.
  assert (H62 : 2 ^ 62 = 4611686018427387904) by reflexivity.
  unfold in_int, min_int, max_int. lia.
Qed.

Lemma diamond_cell_returns (size halfStep : Z) (scale : Q) (y x : Z)
    (st : Heightmap * Rng) :
  size <= 2 ^ 61 + 1 -> 0 <= halfStep ->
  0 <= y - halfStep -> y + halfStep < size ->
  0 <= x - halfStep -> x + halfStep < size ->
  dims size size (fst st) ->
  exists st', diamond_cell Rng Float64 halfStep scale y st x = Returned st'
              /\ dims size size (fst st').
Proof.
  intros Hs Hh Hy1 Hy2 Hx1 Hx2 Hd. destruct st as [hm rng]. cbn [fst] in Hd.
  assert (H61 : 2 ^ 61 = 2305843009213693952) by reflexivity.
  assert (H62 : 2 ^ 62 = 4611686018427387904) by reflexivity.
  unfold diamond_cell, sub, add.
  rewrite (wrap64_id (y - halfStep)), (wrap64_id (y + halfStep)),
    (wrap64_id (x - halfStep)), (wrap64_id (x + halfStep))
    by (apply small_in_int; lia).
  destruct (hm_get_returns size size hm (y - halfStep) (x - halfStep) Hd)
    as [a ->]; [lia|lia|].
  destruct (hm_get_returns size size hm (y - halfStep) (x + halfStep) Hd)
    as [b ->]; [lia|lia|].
  destruct (hm_get_returns size size hm (y + halfStep) (x - halfStep) Hd)
    as [c ->]; [lia|lia|].
  destruct (hm_get_returns size size hm (y + halfStep) (x + halfStep) Hd)
    as [d ->]; [lia|lia|].
  cbn [mbind Result_bind]. destruct (uniform Rng Float64 rng) as [u rng'].
  destruct (hm_set_returns size size hm y x ((a + b + c + d) / 4 + u * scale)%Q Hd)
    as (hm' & -> & Hd'); [lia|lia|].
  cbn. eauto.
Qed.

Lemma square_cell_returns (size halfStep : Z) (scale : Q) (y x : Z)
    (st : Heightmap * Rng) :
  0 <= y < size -> 0 <= x < size ->
  dims size size (fst st) ->
  exists st', square_cell Rng Float64 halfStep size scale y st x = Returned st'
              /\ dims size size (fst st').
Proof.
  intros Hy Hx Hd. destruct st as [hm rng]. cbn [fst] in Hd.
  unfold square_cell.
  destruct (diamondAverage_returns size hm x y halfStep Hd) as [avg ->].
  cbn [mbind Result_bind]. destruct (uniform Rng Float64 rng) as [u rng'].
  destruct (hm_set_returns size size hm y x (avg + u * scale)%Q Hd)
    as (hm' & -> & Hd'); [lia|lia|].
  cbn. eauto.
Qed.

Lemma quo_pow2 (j : Z) : 1 <= j <= 61 -> quo (2 ^ j) 2 = 2 ^ (j - 1).
Proof.
  intros Hj. unfold quo.
  replace (2 ^ j) with (2 ^ (j - 1) * 2)
    by (rewrite pow2_double by lia; f_equal; lia).
  rewrite Z.quot_mul by lia.
  pose proof (pow2_le_62 (j - 1) ltac:(lia)).
  apply wrap64_id, small_in_int. lia.
Qed.

(** One round at [stepSize = 2^j] on a grid of side [2^n + 1]. *)
Lemma round_returns (n j : Z) (scale : Q) (st : Heightmap * Rng) :
  1 <= j <= n -> n <= 61 ->
  dims (2 ^ n + 1) (2 ^ n + 1) (fst st) ->
  exists st', round Rng Float64 (2 ^ n + 1) (2 ^ j) scale st = Returned st'
              /\ dims (2 ^ n + 1) (2 ^ n + 1) (fst st').
Proof.
  intros Hj Hn Hd. unfold round. rewrite quo_pow2 by lia.
  set (size := 2 ^ n + 1) in *. set (h := 2 ^ (j - 1)). set (s := 2 ^ j).
  assert (H61 : 2 ^ 61 = 2305843009213693952) by reflexivity.
  assert (Hh : 0 < h) by (apply Z.pow_pos_nonneg; lia).
  assert (Hs : s = 2 * h).
  { unfold s, h. replace j with (j - 1 + 1) at 1 by lia.
    rewrite <- pow2_double by lia. lia. }
  assert (Hpn : 2 ^ n <= 2 ^ 61) by (apply Z.pow_le_mono_r; lia).
  assert (Hsize : size <= 2 ^ 61 + 1) by (unfold size; lia).
  assert (HM : exists M, 0 < M /\ size - 1 = M * s).
  { exists (2 ^ (n - j)). split; [apply Z.pow_pos_nonneg; lia|].
    unfold size, s. rewrite <- Z.pow_add_r by lia.
    replace (n - j + j) with n by lia. lia. }
  destruct HM as (M & HM0 & HM).
  assert (Hs61 : 0 <= s <= 2 ^ 61) by nia.
  assert (Hcell : forall e, e ∈ for_range h size s ->
                            0 <= e - h /\ e + h < size).
  { intros e He.
    apply for_range_elem in He as ([H1 H2] & k & Hk & ->); try lia.
    split; [nia|]. assert (k < M) by nia. nia. }
  match goal with |- context [foldM ?b st ?l] =>
    destruct (foldM_inv b (fun st => dims size size (fst st)) l st Hd)
      as (st1 & E1 & Hd1)
  end.
  { intros st0 y Hy Hd0. apply foldM_inv; [exact Hd0|].
    intros st2 x Hx Hd2.
    destruct (Hcell y Hy), (Hcell x Hx).
    apply (diamond_cell_returns size); try assumption; lia. }
  rewrite E1. cbn [mbind Result_bind].
  apply foldM_inv; [exact Hd1|].
  intros st0 y Hy Hd0.
  apply for_range_elem in Hy as ([Hy1 Hy2] & _); try lia.
  unfold go_rem. destruct (Z.eqb_spec s 0); [lia|]. cbn [mbind Result_bind].
  unfold add, rem. rewrite wrap64_id by (apply small_in_int; lia).
  pose proof (Z.rem_bound_pos (y + h) s ltac:(lia) ltac:(lia)) as Hrem.
  apply foldM_inv; [exact Hd0|].
  intros st2 x Hx Hd2.
  apply for_range_elem in Hx as ([Hx1 Hx2] & _); try lia.
  apply square_cell_returns; try assumption; lia.
Qed.

Lemma rounds_returns (n : Z) (fuel : nat) (j : Z) (scale roughness : Q)
    (st : Heightmap * Rng) :
  0 <= j <= n -> n <= 61 -> j <= Z.of_nat fuel ->
  dims (2 ^ n + 1) (2 ^ n + 1) (fst st) ->
  exists st', rounds Rng Float64 fuel (2 ^ n + 1) (2 ^ j) scale roughness st
              = Returned st'
              /\ dims (2 ^ n + 1) (2 ^ n + 1) (fst st').
Proof.
  revert j scale st. induction fuel as [|fuel IH]; intros j scale st Hj Hn Hf Hd.
  - assert (j = 0) as -> by lia. cbn. eauto.
  - cbn [rounds]. destruct (Z.ltb_spec 1 (2 ^ j)) as [H1|H1]; [|eauto].
    assert (1 <= j).
    { destruct (Z.eq_dec j 0) as [->|]; [cbn in H1; lia|lia]. }
    destruct (round_returns n j scale st ltac:(lia) Hn Hd) as (st1 & -> & Hd1).
    cbn [mbind Result_bind]. rewrite quo_pow2 by lia.
    apply IH; try assumption; lia.
Qed.

Lemma seed_corners_returns (size : Z) (st : Heightmap * Rng) :
  3 <= size <= 2 ^ 61 + 1 -> dims size size (fst st) ->
  exists st', seed_corners Rng Float64 size st = Returned st'
              /\ dims size size (fst st').
Proof.
  intros Hs Hd. unfold seed_corners.
  assert (H61 : 2 ^ 61 = 2305843009213693952) by reflexivity.
  apply foldM_inv; [exact Hd|].
  intros [hm rng] [y x] Hc Hd0. cbn [fst snd] in *.
  destruct (uniform Rng Float64 rng) as [u rng'].
  assert (Hyx : 0 <= y < size /\ 0 <= x < size).
  { unfold sub in Hc. rewrite wrap64_id in Hc by (apply small_in_int; lia).
    repeat (apply elem_of_cons in Hc as [Hc|Hc]; [injection Hc as -> ->; lia|]).
    inversion Hc. }
  destruct (hm_set_returns size size hm y x u Hd0) as (hm' & -> & Hd');
    [lia|lia|].
  cbn. eauto.
Qed.

Lemma DiamondSquare_returns (size : Z) (roughness : Q) (seed : Z) :
  in_int size -> size <= 2 ^ 61 + 1 ->
  isPowerOfTwoPlusOne size = true ->
  exists hm, DiamondSquare Rng NewSource Float64 size roughness seed = Returned hm
             /\ dims size size hm.
Proof.
  intros Hi Hs Hp. unfold DiamondSquare. rewrite Hp. cbn [negb].
  apply isPowerOfTwoPlusOne_spec in Hp as (n & Hn & ->); [|exact Hi].
  assert (H61 : 2 ^ 61 = 2305843009213693952) by reflexivity.
  assert (Hn61 : n <= 61).
  { destruct (Z.lt_ge_cases 61 n) as [Hgt|]; [|lia].
    pose proof (Z.pow_lt_mono_r 2 61 n ltac:(lia) ltac:(lia) Hgt). lia. }
  pose proof (Z.pow_le_mono_r 2 1 n ltac:(lia) Hn) as Hp1.
  change (2 ^ 1) with 2 in Hp1.
  destruct (make_heightmap_dims (2 ^ n + 1) (2 ^ n + 1)) as (hm0 & -> & Hd0);
    [lia|lia|].
  cbn [mbind Result_bind].
  destruct (seed_corners_returns (2 ^ n + 1) (hm0, NewSource seed)
              ltac:(lia) Hd0) as (st1 & -> & Hd1).
  cbn [mbind Result_bind]. unfold sub.
  replace (2 ^ n + 1 - 1) with (2 ^ n) by lia.
  rewrite wrap64_id by (apply small_in_int; lia).
  destruct (rounds_returns n (Z.to_nat (2 ^ n)) n roughness roughness st1)
    as (st2 & -> & Hd2); try assumption; try lia.
  { rewrite Z2Nat.id by lia. pose proof (Z.pow_gt_lin_r 2 n ltac:(lia)). lia. }
  cbn. eauto.
Qed.

(** X11. [DiamondSquare] panics with its message on every size that is
    not [2^k + 1] with [k >= 1]; on every such size up to [2^61 + 1] it
    returns, never indexing outside its array, a square array of [size]
    rows of [size] cells, whatever the roughness, the seed and the
    generator. *)
Theorem DiamondSquare_square_or_panic (size : Z) (roughness : Q) (seed : Z) :
  GoInt.in_int size -> size <= 2 ^ 61 + 1 ->
  if isPowerOfTwoPlusOne size then
    exists hm, DiamondSquare Rng NewSource Float64 size roughness seed
               = Returned hm
               /\ Z.of_nat (length hm) = size
               /\ Forall (fun row => Z.of_nat (length row) = size) hm
  else DiamondSquare Rng NewSource Float64 size roughness seed
       = Panicked invalid_size.
Proof.
  intros Hi Hs. destruct (isPowerOfTwoPlusOne size) eqn:Hp.
  - destruct (DiamondSquare_returns size roughness seed Hi Hs Hp)
      as (hm & E & Hlen & Hrows).
    assert (0 <= size).
    { apply isPowerOfTwoPlusOne_spec in Hp as (k & Hk & ->); [|exact Hi].
      pose proof (Z.pow_nonneg 2 k ltac:(lia)). lia. }
    exists hm. split; [exact E|]. split; [lia|].
    eapply Forall_impl; [exact Hrows|]. cbn. intros row Hrow. lia.
  - unfold DiamondSquare. now rewrite Hp.
Qed.

End DiamondSquareFacts.

(** A stand-in for [math/rand] in the examples below: a linear
    congruential sequence on [[0, 64)], its samples the eighths in
    [[0, 1)].  The theorems hold for every generator. *)
Definition lcg_source (seed : Z) : Z := seed mod 64.
Definition lcg_float64 (n : Z) : Q * Z :=
  ((inject_Z (n mod 8) / 8)%Q, (n * 5 + 3) mod 64).

Lemma DiamondSquare_square_or_panic_witness :
  exists hm, DiamondSquare Z lcg_source lcg_float64 5 (1 # 2) 42 = Returned hm
             /\ Z.of_nat (length hm) = 5
             /\ Forall (fun row => Z.of_nat (length row) = 5) hm.
Proof.
  apply (DiamondSquare_square_or_panic Z lcg_source lcg_float64 5 (1 # 2) 42).
  - unfold GoInt.in_int, GoInt.min_int, GoInt.max_int. lia.
  - lia.
Defined.

(** ** Multi-octave noise *)

(** [int(f)] for a [float64] [f]: truncation toward zero.  Outside the
    range of [int] the language leaves the result to the implementation;
    amd64 returns [min_int]. *)
Definition float_to_int (f : Q) : Z :=
  let t := Z.quot (Qnum f) (Z.pos (Qden f)) in
  if (GoInt.min_int <=? t) && (t <=? GoInt.max_int) then t else GoInt.min_int.

(** [for y := 0; y < height; y++ { for x := 0; x < width; x++ {
    hm[y][x] = f(y, x, hm[y][x]) } }], where [f] may panic. *)
Definition update_cells (f : Z -> Z -> Q -> Result Q) (width height : Z)
    (hm : Heightmap) : Result Heightmap :=
  foldM (fun hm y =>
           foldM (fun hm x =>
                    old ← hm_get hm y x;
                    new ← f y x old;
                    hm_set hm y x new)
                 hm (range 0 width))
        hm (range 0 height).

Section MultiOctave.

Variable Rng : Type.
Variable NewSource : Z -> Rng.
Variable Float64 : Rng -> Q * Rng.

(** The index into the octave along one axis:
    [int(float64(x) * frequency) % noiseSize], made non-negative. *)
Definition noise_index (x : Z) (frequency : Q) (noiseSize : Z) : Result Z :=
  n ← go_rem (float_to_int (inject_Z x * frequency)%Q) noiseSize;
  Returned (if n <? 0 then GoInt.add n noiseSize else n).

(** The body of [for octave := 0; octave < octaves; octave++]; the state
    is [(result, amplitude, frequency, maxValue)]. *)
Definition octave_round (width height noiseSize seed : Z)
    (persistence lacunarity : Q)
    (st : Heightmap * Q * Q * Q) (octave : Z)
    : Result (Heightmap * Q * Q * Q) :=
  let '(result, amplitude, frequency, maxValue) := st in
  let octaveSeed := GoInt.add seed (GoInt.mul octave 1000) in
  octaveNoise ← DiamondSquare Rng NewSource Float64 noiseSize (1 # 2) octaveSeed;
  result ← update_cells
             (fun y x old =>
                noiseX ← noise_index x frequency noiseSize;
                noiseY ← noise_index y frequency noiseSize;
                sample ← hm_get octaveNoise noiseY noiseX;
                Returned (old + sample * amplitude)%Q)
             width height result;
  Returned (result, (amplitude * persistence)%Q, (frequency * lacunarity)%Q,
            (maxValue + amplitude)%Q).

(** [func MultiOctaveNoise(width, height int, octaves int, persistence,
    lacunarity, scale float64, seed int64) [][]float64]; [None] when the
    loop of [nextPowerOfTwoPlusOne] does not end. *)
Definition MultiOctaveNoise (width height octaves : Z)
    (persistence lacunarity scale : Q) (seed : Z) : option (Result Heightmap) :=
  noiseSize ← nextPowerOfTwoPlusOne (max width height);
  Some (
    result ← make_heightmap width height;
    st ← foldM (octave_round width height noiseSize seed persistence lacunarity)
               (result, 1%Q, scale, 0%Q) (range 0 octaves);
    let '(result, _, _, maxValue) := st in
    update_cells (fun _ _ old => Returned (old / maxValue)%Q)
                 width height result).

End MultiOctave.

Section MultiOctaveFacts.

Import GoInt.

Context (Rng : Type) (NewSource : Z -> Rng) (Float64 : Rng -> Q * Rng).

Lemma range_elem (x n : Z) : x ∈ range 0 n <-> 0 <= x < n.
Proof. unfold range. rewrite elem_of_seqZ. lia. Qed.

Lemma update_cells_returns (f : Z -> Z -> Q -> Result Q) (w h : Z)
    (hm : Heightmap) :
  dims w h hm ->
  (forall y x old, 0 <= y < h -> 0 <= x < w -> exists v, f y x old = Returned v) ->
  exists hm', update_cells f w h hm = Returned hm' /\ dims w h hm'.
Proof.
  intros Hd Hf. unfold update_cells.
  apply foldM_inv; [exact Hd|]. intros hm0 y Hy Hd0.
  apply range_elem in Hy.
  apply foldM_inv; [exact Hd0|]. intros hm1 x Hx Hd1.
  apply range_elem in Hx.
  destruct (hm_get_returns w h hm1 y x Hd1 Hy Hx) as [old ->].
  cbn [mbind Result_bind].
  destruct (Hf y x old Hy Hx) as [v ->]. cbn [mbind Result_bind].
  now apply hm_set_returns.
Qed.

Lemma float_to_int_range (f : Q) : in_int (float_to_int f).
Proof.
  unfold float_to_int, in_int.
  destruct (Z.leb_spec min_int (Z.quot (Qnum f) (Z.pos (Qden f)))),
    (Z.leb_spec (Z.quot (Qnum f) (Z.pos (Qden f))) max_int);
    cbn; unfold min_int, max_int in *; lia.
Qed.

Lemma noise_index_returns (x : Z) (frequency : Q) (noiseSize : Z) :
  0 < noiseSize <= 2 ^ 61 + 1 ->
  exists i, noise_index x frequency noiseSize = Returned i /\ 0 <= i < noiseSize.
Proof.
  intros HN. unfold noise_index, go_rem.
  assert (H61 : 2 ^ 61 = 2305843009213693952) by reflexivity.
  destruct (Z.eqb_spec noiseSize 0); [lia|]. cbn [mbind Result_bind].
  eexists. split; [reflexivity|]. unfold rem, add.
  pose proof (Z.rem_bound_abs (float_to_int (inject_Z x * frequency)) noiseSize
                ltac:(lia)) as Hr.
  destruct (Z.ltb_spec (Z.rem (float_to_int (inject_Z x * frequency)) noiseSize) 0).
  - rewrite wrap64_id by (unfold in_int, min_int, max_int; lia). lia.
  - lia.
Qed.

Lemma octave_round_returns (w h noiseSize seed : Z) (persistence lacunarity : Q)
    (st : Heightmap * Q * Q * Q) (octave : Z) :
  in_int noiseSize -> noiseSize <= 2 ^ 61 + 1 ->
  isPowerOfTwoPlusOne noiseSize = true ->
  dims w h (fst (fst (fst st))) ->
  exists st', octave_round Rng NewSource Float64 w h noiseSize seed
                           persistence lacunarity st octave = Returned st'
              /\ dims w h (fst (fst (fst st'))).
Proof.
  intros Hi HN Hp Hd. destruct st as [[[result amplitude] frequency] maxValue].
  cbn [fst] in Hd. unfold octave_round.
  destruct (DiamondSquare_returns Rng NewSource Float64 noiseSize (1 # 2)
              (add seed (mul octave 1000)) Hi HN Hp) as (noise & -> & Hdn).
  cbn [mbind Result_bind].
  assert (HN0 : 0 < noiseSize).
  { apply isPowerOfTwoPlusOne_spec in Hp as (k & Hk & ->); [|exact Hi].
    pose proof (Z.pow_nonneg 2 k ltac:(lia)). lia. }
  match goal with |- context [update_cells ?f w h result] =>
    destruct (update_cells_returns f w h result Hd) as (result' & -> & Hd')
  end.
  - intros y x old _ _.
    destruct (noise_index_returns x frequency noiseSize ltac:(lia))
      as (nx & -> & Hnx).
    destruct (noise_index_returns y frequency noiseSize ltac:(lia))
      as (ny & -> & Hny).
    cbn [mbind Result_bind].
    destruct (hm_get_returns noiseSize noiseSize noise ny nx Hdn Hny Hnx)
      as [sample ->].
    cbn. eauto.
  - cbn. eauto.
Qed.

Lemma MultiOctaveNoise_returns (w h octaves : Z)
    (persistence lacunarity scale : Q) (seed : Z) :
  0 <= w <= 2 ^ 61 -> 0 <= h <= 2 ^ 61 ->
  exists hm, MultiOctaveNoise Rng NewSource Float64 w h octaves persistence
                              lacunarity scale seed = Some (Returned hm)
             /\ dims w h hm.
Proof.
  intros Hw Hh. unfold MultiOctaveNoise.
  assert (H61 : 2 ^ 61 = 2305843009213693952) by reflexivity.
  assert (H62 : 2 ^ 62 = 4611686018427387904) by reflexivity.
  assert (Hmax : 0 <= max w h <= 2 ^ 61)
    by (unfold max; destruct (Z.ltb_spec h w); lia).
  destruct (nextPowerOfTwoPlusOne_least (max w h)) as (N & -> & Hp & Hle & _ & Hmin).
  { unfold in_int, min_int, max_int. lia. }
  { lia. }
  cbn [mbind option_bind].
  assert (HN : N <= 2 ^ 61 + 1).
  { apply Hmin; [unfold in_int, min_int, max_int; lia| |lia].
    apply isPowerOfTwoPlusOne_pow. lia. }
  assert (Hi : in_int N) by (unfold in_int, min_int, max_int; lia).
  destruct (make_heightmap_dims w h) as (hm0 & -> & Hd0); [lia|lia|].
  cbn [mbind Result_bind].
  match goal with |- context [foldM ?b ?s ?l] =>
    destruct (foldM_inv b (fun st => dims w h (fst (fst (fst st)))) l s Hd0)
      as (st1 & -> & Hd1)
  end.
  { intros st octave _ Hd. now apply octave_round_returns. }
  cbn [mbind Result_bind].
  destruct st1 as [[[result amplitude] frequency] maxValue]. cbn [fst] in Hd1.
  destruct (update_cells_returns (fun _ _ old => Returned (old / maxValue)%Q)
              w h result Hd1) as (hm & -> & Hd); [eauto|].
  eauto.
Qed.

(** X12. For every width and height between 0 and [2^61], and whatever
    the number of octaves, the noise parameters, the seed and the
    generator, [MultiOctaveNoise] returns (it neither panics nor loops)
    an array of [height] rows of [width] cells. *)
Theorem MultiOctaveNoise_shape (w h octaves : Z)
    (persistence lacunarity scale : Q) (seed : Z) :
  0 <= w <= 2 ^ 61 -> 0 <= h <= 2 ^ 61 ->
  exists hm, MultiOctaveNoise Rng NewSource Float64 w h octaves persistence
                              lacunarity scale seed = Some (Returned hm)
             /\ Z.of_nat (length hm) = h
             /\ Forall (fun row => Z.of_nat (length row) = w) hm.
Proof.
  intros Hw Hh.
  destruct (MultiOctaveNoise_returns w h octaves persistence lacunarity scale
              seed Hw Hh) as (hm & E & Hlen & Hrows).
  exists hm. split; [exact E|]. split; [lia|].
  eapply Forall_impl; [exact Hrows|]. cbn. intros row Hrow. lia.
Qed.

End MultiOctaveFacts.

Lemma MultiOctaveNoise_shape_witness :
  exists hm, MultiOctaveNoise Z lcg_source lcg_float64 8 6 6 (1 # 2) 2 (1 # 100) 42
             = Some (Returned hm)
             /\ Z.of_nat (length hm) = 6
             /\ Forall (fun row => Z.of_nat (length row) = 8) hm.
Proof.
  apply (MultiOctaveNoise_shape Z lcg_source lcg_float64); lia.
Defined.

(** * pkg/terrain *)

(** ** Comparisons of [float64] values *)

Definition Qltb (a b : Q) : bool := negb (Qle_bool b a).
Definition Qleb (a b : Q) : bool := Qle_bool a b.

Lemma Qltb_lt (a b : Q) : Qltb a b = true <-> (a < b)%Q.
Proof.
  unfold Qltb. rewrite negb_true_iff. split.
  - intros H. apply Qnot_le_lt. intros Hle. apply Qle_bool_iff in Hle. congruence.
  - intros H. apply not_true_is_false. intros Hle. apply Qle_bool_iff in Hle.
    apply (Qlt_not_le _ _ H Hle).
Qed.

Lemma Qleb_le (a b : Q) : Qleb a b = true <-> (a <= b)%Q.
Proof. apply Qle_bool_iff. Qed.

(** ** Types *)

Record HexTile : Type :=
  { Coordinates : AxialCoord;
    Elevation : Q;
    IsLand : bool;
    DistanceToWater : Q }.

Record NoiseParameters : Type :=
  { Octaves : Z;
    Persistence : Q;
    Lacunarity : Q;
    Scale : Q;
    HurstExp : Q }.

Record TerrainConfig : Type :=
  { Seed : Z;
    SeaLevel : Q;
    LandRatio : Q;
    NoiseParams : NoiseParameters }.

(** [TerrainError{Message}] *)
Record TerrainError : Type := { Message : string }.

Definition ElevationMin : Q := - (11000 # 1).
Definition ElevationMax : Q := 8849 # 1.

(** [func DefaultNoiseParameters() NoiseParameters] *)
Definition DefaultNoiseParameters : NoiseParameters :=
  {| Octaves := 6; Persistence := 1 # 2; Lacunarity := 2 # 1;
     Scale := 1 # 100; HurstExp := 85 # 100 |}.

(** [func DefaultTerrainConfig() TerrainConfig] *)
Definition DefaultTerrainConfig : TerrainConfig :=
  {| Seed := 42; SeaLevel := 0; LandRatio := 29 # 100;
     NoiseParams := DefaultNoiseParameters |}.

(** [func (tc TerrainConfig) Validate() error]; [None] is [nil]. *)
Definition Validate (tc : TerrainConfig) : option TerrainError :=
  if Qltb (LandRatio tc) 0 || Qltb 1 (LandRatio tc) then
    Some {| Message := "land_ratio must be between 0.0 and 1.0" |}
  else if (Octaves (NoiseParams tc) <? 1) || (10 <? Octaves (NoiseParams tc)) then
    Some {| Message := "octaves must be between 1 and 10" |}
  else if Qleb (Persistence (NoiseParams tc)) 0
          || Qltb 1 (Persistence (NoiseParams tc)) then
    Some {| Message := "persistence must be between 0.0 and 1.0" |}
  else if Qleb (Lacunarity (NoiseParams tc)) 1 then
    Some {| Message := "lacunarity must be greater than 1.0" |}
  else if Qltb (HurstExp (NoiseParams tc)) 0
          || Qltb 1 (HurstExp (NoiseParams tc)) then
    Some {| Message := "hurst_exp must be between 0.0 and 1.0" |}
  else None.

(** [func (e *TerrainError) Error() string] *)
Definition Error (e : TerrainError) : string :=
  ("terrain error: " ++ Message e)%string.

(** [func (ht *HexTile) IsRealistic() bool] *)
Definition IsRealistic (ht : HexTile) : bool :=
  Qleb ElevationMin (Elevation ht) && Qleb (Elevation ht) ElevationMax.

(** [func (ht *HexTile) ClassifyLandWater(seaLevel float64)]; the result
    is the tile after the store. *)
Definition ClassifyLandWater (ht : HexTile) (seaLevel : Q) : HexTile :=
  {| Coordinates := Coordinates ht;
     Elevation := Elevation ht;
     IsLand := Qltb seaLevel (Elevation ht);
     DistanceToWater := DistanceToWater ht |}.



(** [func ElevationToRealisticRange(normalizedElev float64) float64] *)
Definition ElevationToRealisticRange (normalizedElev : Q) : Q :=
  if Qltb normalizedElev 0 then (normalizedElev * (11000 # 1))%Q
  else (normalizedElev * (8849 # 1))%Q.

(** ** Tile assembly *)

(** A loop that builds one result per element, in order; the first
    panic ends it. *)
Definition mapM {A B : Type} (f : A -> Result B) (l : list A) : Result (list B) :=
  foldr (fun a rest => b ← f a; bs ← rest; Returned (b :: bs)) (Returned []) l.

(** [len(l)] *)
Definition len {A} (l : list A) : Z := Z.of_nat (length l).

(** [func HeightmapToHexTiles(heightmap [][]float64, grid *hex.Grid,
    seaLevel float64) []*HexTile] *)
Definition HeightmapToHexTiles {V} (heightmap : Heightmap) (grid : Grid V)
    (seaLevel : Q) : Result (list HexTile) :=
  let coords := AllCoords grid in
  let height := len heightmap in
  let width := if 0 <? height then len (hd [] heightmap) else 0 in
  mapM (fun coord =>
          let '(col, row) := ToOffset coord in
          x ← go_rem col width;
          y ← go_rem row height;
          let x := if x <? 0 then GoInt.add x width else x in
          let y := if y <? 0 then GoInt.add y height else y in
          elevation ← hm_get heightmap y x;
          let tile := {| Coordinates := coord; Elevation := elevation;
                         IsLand := false; DistanceToWater := 0 |} in
          Returned (ClassifyLandWater tile seaLevel))
       coords.

Definition MaxInt32 : Z := 2 ^ 31 - 1.
Definition MinInt32 : Z := - 2 ^ 31.

(** [func calculateGridDimensions(coords []hex.AxialCoord) (width, height int)] *)
Definition calculateGridDimensions (coords : list AxialCoord) : Z * Z :=
  if len coords =? 0 then (0, 0)
  else
    let '(minCol, maxCol, minRow, maxRow) :=
      foldl (fun (acc : Z * Z * Z * Z) coord =>
               let '(minCol, maxCol, minRow, maxRow) := acc in
               let '(col, row) := ToOffset coord in
               (if col <? minCol then col else minCol,
                if maxCol <? col then col else maxCol,
                if row <? minRow then row else minRow,
                if maxRow <? row then row else maxRow))
            (MaxInt32, MinInt32, MaxInt32, MinInt32) coords in
    (GoInt.add (GoInt.sub maxCol minCol) 1,
     GoInt.add (GoInt.sub maxRow minRow) 1).

(** ** Properties: tile assembly *)

Section Assembly.

Import GoInt.

Context {V : Type}.

Lemma mapM_cons {A B} (f : A -> Result B) (a : A) (l : list A) :
  mapM f (a :: l) = (b ← f a; bs ← mapM f l; Returned (b :: bs)).
Proof. reflexivity. Qed.

Lemma mapM_Forall2 {A B} (f : A -> Result B) (P : A -> B -> Prop) (l : list A) :
  (forall a, a ∈ l -> exists b, f a = Returned b /\ P a b) ->
  exists bs, mapM f l = Returned bs /\ Forall2 P l bs.
Proof.
  induction l as [|a l IH]; intros Hf.
  - exists []. split; [reflexivity|constructor].
  - destruct (Hf a ltac:(left)) as (b & Eb & Hb).
    destruct IH as (bs & Ebs & Hbs); [intros a' Ha'; apply Hf; now right|].
    exists (b :: bs). rewrite mapM_cons, Eb. cbn. rewrite Ebs. cbn.
    split; [reflexivity|now constructor].
Qed.

(** [x % n], plus [n] when negative, is the floored modulus. *)
Lemma floored_index (c n : Z) :
  0 < n <= 2 ^ 61 ->
  exists r, go_rem c n = Returned r
            /\ (if r <? 0 then add r n else r) = c mod n.
Proof.
  intros Hn. unfold go_rem. destruct (Z.eqb_spec n 0); [lia|].
  assert (H61 : 2 ^ 61 = 2305843009213693952) by reflexivity.
  eexists. split; [reflexivity|]. unfold rem, add.
  pose proof (Z.rem_bound_abs c n ltac:(lia)) as Hr.
  pose proof (Z.quot_rem' c n) as Hq.
  destruct (Z.ltb_spec (Z.rem c n) 0).
  - rewrite wrap64_id by (unfold in_int, min_int, max_int; lia).
    apply (Z.mod_unique_pos c n (Z.quot c n - 1)); lia.
  - apply (Z.mod_unique_pos c n (Z.quot c n)); lia.
Qed.

(** What [HeightmapToHexTiles] promises of the tile made for [c]. *)
Definition tile_of (hm : Heightmap) (w h : Z) (seaLevel : Q)
    (c : AxialCoord) (t : HexTile) : Prop :=
  Coordinates t = c
  /\ (IsLand t = true <-> (seaLevel < Elevation t)%Q)
  /\ DistanceToWater t = 0%Q
  /\ (r ← hm !! Z.to_nat (snd (ToOffset c) mod h);
      r !! Z.to_nat (fst (ToOffset c) mod w)) = Some (Elevation t).

Lemma dims_len (w h : Z) (hm : Heightmap) :
  0 < h -> 0 <= w -> dims w h hm ->
  len hm = h /\ len (hd [] hm) = w.
Proof.
  intros Hh Hw [Hlen Hrows]. unfold len. split; [lia|].
  destruct hm as [|r hm]; [cbn in Hlen; lia|].
  apply Forall_cons in Hrows as [Hr _]. cbn. lia.
Qed.

Lemma HeightmapToHexTiles_returns (hm : Heightmap) (g : Grid V) (seaLevel : Q)
    (w h : Z) :
  0 < w <= 2 ^ 61 -> 0 < h <= 2 ^ 61 -> dims w h hm ->
  exists tiles, HeightmapToHexTiles hm g seaLevel = Returned tiles
                /\ Forall2 (tile_of hm w h seaLevel) (AllCoords g) tiles.
Proof.
  intros Hw Hh Hd. unfold HeightmapToHexTiles.
  destruct (dims_len w h hm ltac:(lia) ltac:(lia) Hd) as [-> Hw'].
  destruct (Z.ltb_spec 0 h); [|lia]. rewrite Hw'.
  apply mapM_Forall2. intros c _.
  destruct (ToOffset c) as [col row] eqn:E.
  destruct (floored_index col w Hw) as (x & -> & Ex).
  destruct (floored_index row h Hh) as (y & -> & Ey).
  cbn [mbind Result_bind]. rewrite Ex, Ey.
  pose proof (Z.mod_pos_bound col w ltac:(lia)) as Hx.
  pose proof (Z.mod_pos_bound row h ltac:(lia)) as Hy.
  destruct Hd as [Hlen Hrows].
  destruct (lookup_lt_is_Some_2 hm (Z.to_nat (row mod h))) as [r Hr]; [lia|].
  pose proof (proj1 (Forall_lookup _ _) Hrows _ _ Hr) as Hlr. cbn in Hlr.
  destruct (lookup_lt_is_Some_2 r (Z.to_nat (col mod w))) as [v Hv]; [lia|].
  unfold hm_get. rewrite (index_lookup hm _ r) by (lia || assumption).
  cbn [mbind Result_bind]. rewrite (index_lookup r _ v) by (lia || assumption).
  cbn [mbind Result_bind]. eexists. split; [reflexivity|].
  unfold tile_of, ClassifyLandWater. rewrite E.
  cbn [Coordinates Elevation IsLand DistanceToWater fst snd].
  split; [reflexivity|]. split; [apply Qltb_lt|]. split; [reflexivity|].
  rewrite Hr. cbn. exact Hv.
Qed.

(** X13. On a heightmap of [h >= 1] rows of [w >= 1] cells
    [HeightmapToHexTiles] never panics, whatever the size of the grid: it
    returns one tile per coordinate of [AllCoords], in that order, the
    tile of [c] carrying [c], the elevation
    [heightmap[row mod h][col mod w]] at the offset [(col, row)] of [c]
    (floored modulus), [IsLand] true exactly when the elevation is
    strictly above the sea level, and a zero [DistanceToWater]. *)
Theorem HeightmapToHexTiles_tiles (hm : Heightmap) (g : Grid V) (seaLevel : Q)
    (w h : Z) :
  0 < w <= 2 ^ 61 -> 0 < h <= 2 ^ 61 -> dims w h hm ->
  exists tiles, HeightmapToHexTiles hm g seaLevel = Returned tiles
                /\ Forall2 (tile_of hm w h seaLevel) (AllCoords g) tiles.
Proof. apply HeightmapToHexTiles_returns. Qed.

(** X14. With no coordinate to visit [HeightmapToHexTiles] returns no
    tile, whatever the heightmap.  With at least one coordinate and a
    heightmap that has no row, or an empty first row, it panics: the
    column is reduced modulo a zero width. *)
Theorem HeightmapToHexTiles_empty (hm : Heightmap) (g : Grid V) (seaLevel : Q) :
  (AllCoords g = [] -> HeightmapToHexTiles hm g seaLevel = Returned [])
  /\ (AllCoords g <> [] -> hd [] hm = [] ->
      HeightmapToHexTiles hm g seaLevel = Panicked divide_by_zero).
Proof.
  unfold HeightmapToHexTiles. split.
  - intros ->. reflexivity.
  - intros Hne Hhd. destruct (AllCoords g) as [|c l]; [congruence|].
    rewrite mapM_cons. rewrite Hhd.
    replace (if 0 <? len hm then len [] else 0) with 0
      by (destruct (0 <? len hm); reflexivity).
    destruct (ToOffset c) as [col row]. reflexivity.
Qed.

End Assembly.

Lemma HeightmapToHexTiles_tiles_witness :
  let hm := [[- (100 # 1); 200 # 1; 1500 # 1]; [- (50 # 1); 0; 800 # 1]]%Q in
  let g := {| config := {| Width := 4; Height := 3; Topology_ := TopologyRegion |};
              tiles := @nil (list (option unit)); coordMap := ∅ |} in
  exists tiles, HeightmapToHexTiles hm g 0 = Returned tiles
                /\ Forall2 (tile_of hm 3 2 0) (AllCoords g) tiles.
Proof.
  apply HeightmapToHexTiles_tiles; [lia|lia|].
  split; [reflexivity|repeat constructor].
Defined.

Lemma HeightmapToHexTiles_empty_witness :
  let g := {| config := {| Width := 4; Height := 3; Topology_ := TopologyRegion |};
              tiles := @nil (list (option unit)); coordMap := ∅ |} in
  (AllCoords g = [] -> HeightmapToHexTiles [] g 0 = Returned [])
  /\ (AllCoords g <> [] -> hd [] (@nil (list Q)) = [] ->
      HeightmapToHexTiles [] g 0 = Panicked divide_by_zero).
Proof.
  apply (HeightmapToHexTiles_empty []).
Defined.

(** ** Properties: the bounding box of a grid *)

Section BoundingBox.

Import GoInt.

Definition keep_min (m x : Z) : Z := if x <? m then x else m.
Definition keep_max (m x : Z) : Z := if m <? x then x else m.

Lemma box_fold_split (coords : list AxialCoord) (a b c d : Z) :
  foldl (fun (acc : Z * Z * Z * Z) coord =>
           let '(minCol, maxCol, minRow, maxRow) := acc in
           let '(col, row) := ToOffset coord in
           (if col <? minCol then col else minCol,
            if maxCol <? col then col else maxCol,
            if row <? minRow then row else minRow,
            if maxRow <? row then row else maxRow))
        (a, b, c, d) coords
  = (foldl keep_min a (map (fun c => fst (ToOffset c)) coords),
     foldl keep_max b (map (fun c => fst (ToOffset c)) coords),
     foldl keep_min c (map (fun c => snd (ToOffset c)) coords),
     foldl keep_max d (map (fun c => snd (ToOffset c)) coords)).
Proof.
  revert a b c d. induction coords as [|coord coords IH]; intros a b c d;
    [reflexivity|].
  cbn [foldl map]. destruct (ToOffset coord) as [col row] eqn:E.
  cbn [fst snd]. rewrite IH. reflexivity.
Qed.

Lemma keep_min_fold (a : Z) (xs : list Z) :
  foldl keep_min a xs <= a
  /\ Forall (fun x => foldl keep_min a xs <= x) xs
  /\ (foldl keep_min a xs = a \/ foldl keep_min a xs ∈ xs).
Proof.
  revert a. induction xs as [|x xs IH]; intros a; cbn [foldl].
  - split; [lia|]. split; [constructor|now left].
  - destruct (IH (keep_min a x)) as (H1 & H2 & H3).
    assert (Hk : keep_min a x <= a /\ keep_min a x <= x
                 /\ (keep_min a x = a \/ keep_min a x = x))
      by (unfold keep_min; destruct (Z.ltb_spec x a); lia).
    split; [lia|]. split.
    + constructor; [lia|exact H2].
    + destruct H3 as [H3|H3]; [|right; now right].
      destruct Hk as (_ & _ & [Hk|Hk]); [left; lia|].
      right. rewrite H3, Hk. left.
Qed.

Lemma keep_max_fold (a : Z) (xs : list Z) :
  a <= foldl keep_max a xs
  /\ Forall (fun x => x <= foldl keep_max a xs) xs
  /\ (foldl keep_max a xs = a \/ foldl keep_max a xs ∈ xs).
Proof.
  revert a. induction xs as [|x xs IH]; intros a; cbn [foldl].
  - split; [lia|]. split; [constructor|now left].
  - destruct (IH (keep_max a x)) as (H1 & H2 & H3).
    assert (Hk : a <= keep_max a x /\ x <= keep_max a x
                 /\ (keep_max a x = a \/ keep_max a x = x))
      by (unfold keep_max; destruct (Z.ltb_spec a x); lia).
    split; [lia|]. split.
    + constructor; [lia|exact H2].
    + destruct H3 as [H3|H3]; [|right; now right].
      destruct Hk as (_ & _ & [Hk|Hk]); [left; lia|].
      right. rewrite H3, Hk. left.
Qed.

(** The least and greatest of a list whose members lie in [[0, n)] and
    include 0 and [n - 1]. *)
Lemma extremes (n : Z) (xs : list Z) :
  0 < n -> Forall (fun x => 0 <= x < n) xs -> 0 ∈ xs -> (n - 1) ∈ xs ->
  foldl keep_min MaxInt32 xs = 0 /\ foldl keep_max MinInt32 xs = n - 1.
Proof.
  intros Hn Hall H0 Hn1.
  destruct (keep_min_fold MaxInt32 xs) as (A1 & A2 & A3).
  destruct (keep_max_fold MinInt32 xs) as (B1 & B2 & B3).
  rewrite Forall_forall in Hall, A2, B2.
  pose proof (A2 _ H0). pose proof (B2 _ Hn1).
  unfold MaxInt32, MinInt32 in *. split.
  - destruct A3 as [A3|A3]; [lia|]. pose proof (Hall _ A3). lia.
  - destruct B3 as [B3|B3]; [lia|]. pose proof (Hall _ B3). lia.
Qed.

Context {V : Type}.

Lemma AllCoords_offsets (g : Grid V) :
  Width (config g) < 2 ^ 62 -> Height (config g) < 2 ^ 62 ->
  Forall (fun c => 0 <= fst (ToOffset c) < Width (config g)
                   /\ 0 <= snd (ToOffset c) < Height (config g))
         (AllCoords g).
Proof.
  intros Hw Hh. apply Forall_forall. intros c Hc.
  apply AllCoords_elem in Hc as (col & row & Hcol & Hrow & ->).
  rewrite ToOffset_OffsetToAxial by (eapply in_int_below; eauto).
  cbn. lia.
Qed.

Lemma AllCoords_has (g : Grid V) (col row : Z) :
  0 <= col < Width (config g) -> 0 <= row < Height (config g) ->
  OffsetToAxial col row ∈ AllCoords g.
Proof.
  intros Hc Hr. unfold AllCoords. apply list_elem_of_In, in_flat_map.
  exists row. split; [apply list_elem_of_In, range_elem; lia|].
  apply in_map_iff. exists col. split; [reflexivity|].
  apply list_elem_of_In, range_elem. lia.
Qed.

Lemma calculateGridDimensions_AllCoords (g : Grid V) :
  1 <= Width (config g) < 2 ^ 61 -> 1 <= Height (config g) < 2 ^ 61 ->
  calculateGridDimensions (AllCoords g)
  = (Width (config g), Height (config g)).
Proof.
  intros Hw Hh.
  assert (H61 : 2 ^ 61 = 2305843009213693952) by reflexivity.
  assert (H62 : 2 ^ 62 = 4611686018427387904) by reflexivity.
  unfold calculateGridDimensions.
  assert (Hlen : len (AllCoords g) <> 0).
  { unfold len. rewrite AllCoords_length. nia. }
  destruct (Z.eqb_spec (len (AllCoords g)) 0); [contradiction|].
  rewrite box_fold_split.
  pose proof (AllCoords_offsets g ltac:(lia) ltac:(lia)) as Hall.
  assert (Hin : forall col row, 0 <= col < Width (config g) ->
                  0 <= row < Height (config g) ->
                  col ∈ map (fun c => fst (ToOffset c)) (AllCoords g)
                  /\ row ∈ map (fun c => snd (ToOffset c)) (AllCoords g)).
  { intros col row Hc Hr.
    pose proof (AllCoords_has g col row Hc Hr) as Hin.
    assert (E : ToOffset (OffsetToAxial col row) = (col, row))
      by (apply ToOffset_OffsetToAxial; eapply in_int_below; eauto; lia).
    split; apply list_elem_of_In, in_map_iff; exists (OffsetToAxial col row);
      (split; [now rewrite E|now apply list_elem_of_In]). }
  destruct (Hin 0 0 ltac:(lia) ltac:(lia)) as [Hc0 Hr0].
  destruct (Hin (Width (config g) - 1) (Height (config g) - 1)
              ltac:(lia) ltac:(lia)) as [Hc1 Hr1].
  destruct (extremes (Width (config g))
              (map (fun c => fst (ToOffset c)) (AllCoords g))) as [-> ->];
    try assumption; try lia.
  { apply Forall_map. eapply Forall_impl; [exact Hall|]. cbn. tauto. }
  destruct (extremes (Height (config g))
              (map (fun c => snd (ToOffset c)) (AllCoords g))) as [-> ->];
    try assumption; try lia.
  { apply Forall_map. eapply Forall_impl; [exact Hall|]. cbn. tauto. }
  unfold add, sub.
  rewrite !Z.sub_0_r.
  rewrite (wrap64_id (Width (config g) - 1)), (wrap64_id (Height (config g) - 1))
    by (unfold in_int, min_int, max_int; lia).
  rewrite !wrap64_id by (unfold in_int, min_int, max_int; lia).
  f_equal; lia.
Qed.

(** X15. For a grid of at least one cell (and less than [2^61] a side)
    [calculateGridDimensions] of its [AllCoords] is its width and
    height; of an empty list it is [(0, 0)]. *)
Theorem calculateGridDimensions_grid (g : Grid V) :
  1 <= Width (config g) < 2 ^ 61 -> 1 <= Height (config g) < 2 ^ 61 ->
  calculateGridDimensions (AllCoords g)
  = (Width (config g), Height (config g))
  /\ calculateGridDimensions [] = (0, 0).
Proof.
  intros Hw Hh. split; [now apply calculateGridDimensions_AllCoords|reflexivity].
Qed.

End BoundingBox.

Lemma calculateGridDimensions_grid_witness :
  let g := {| config := {| Width := 10; Height := 8; Topology_ := TopologyWorld |};
              tiles := @nil (list (option unit)); coordMap := ∅ |} in
  calculateGridDimensions (AllCoords g) = (10, 8)
  /\ calculateGridDimensions [] = (0, 0).
Proof.
  apply (calculateGridDimensions_grid
           {| config := {| Width := 10; Height := 8; Topology_ := TopologyWorld |};
              tiles := @nil (list (option unit)); coordMap := ∅ |});
    cbn; lia.
Defined.

(** ** Hypsometric shaping and the generator *)

From stdpp Require Import sorting.

Local Open Scope Z_scope.

#[global] Instance Qle_decision : RelDecision Qle.
Proof.
  intros x y. destruct (Qlt_le_dec y x) as [H|H].
  - right. now apply Qlt_not_le.
  - left. exact H.
Defined.

(** [sort.Float64s]: ascending order. *)
Definition sort_Float64s (l : list Q) : list Q := merge_sort Qle l.

Section Generator.

(** [math.Pow], and the generator of [math/rand]. *)
Variable Pow : Q -> Q -> Q.
Variable Rng : Type.
Variable NewSource : Z -> Rng.
Variable Float64 : Rng -> Q * Rng.

(** The remap of one cell of [ApplyHypsometricCurve].  A division by a
    zero threshold gives an infinity or a NaN in Go and 0 here; no
    property below depends on the value. *)
Definition shape_cell (seaLevelThreshold originalElev : Q) : Q :=
  if Qleb originalElev seaLevelThreshold then
    let ratio := (originalElev / seaLevelThreshold)%Q in
    let ratio := if Qltb ratio 0 then 0%Q else ratio in
    let depth := (Pow ratio (3 # 1) * (6000 # 1))%Q in
    (- depth)%Q
  else
    let ratio := ((originalElev - seaLevelThreshold) / (1 - seaLevelThreshold))%Q in
    let ratio := if Qltb 1 ratio then 1%Q else ratio in
    let height := (Pow ratio (5 # 2) * (8800 # 1))%Q in
    height.

(** [func ApplyHypsometricCurve(heightmap [][]float64,
    targetLandRatio float64) [][]float64] *)
Definition ApplyHypsometricCurve (heightmap : Heightmap) (targetLandRatio : Q)
    : Result Heightmap :=
  if Qleb targetLandRatio 0 || Qleb 1 targetLandRatio then Returned heightmap
  else
    let elevations := sort_Float64s (concat heightmap) in
    let seaLevelIndex :=
      float_to_int (inject_Z (len elevations) * (1 - targetLandRatio))%Q in
    let seaLevelIndex :=
      if len elevations <=? seaLevelIndex then GoInt.sub (len elevations) 1
      else seaLevelIndex in
    seaLevelThreshold ← index elevations seaLevelIndex;
    Returned (map (map (shape_cell seaLevelThreshold)) heightmap).

(** [func GenerateHeightmap(width, height int, params NoiseParameters,
    seed int64) [][]float64] *)
Definition GenerateHeightmap (width height : Z) (params : NoiseParameters)
    (seed : Z) : option (Result Heightmap) :=
  MultiOctaveNoise Rng NewSource Float64 width height (Octaves params)
                   (Persistence params) (Lacunarity params) (Scale params) seed.

(** [func GenerateTerrain(grid *hex.Grid, config TerrainConfig)
    ([]*HexTile, error)]: the pair is [inr tiles] for [(tiles, nil)] and
    [inl err] for [(nil, err)]; [None] when a loop does not end. *)
Definition GenerateTerrain {V} (grid : Grid V) (config : TerrainConfig)
    : option (Result (TerrainError + list HexTile)) :=
  match Validate config with
  | Some err => Some (Returned (inl err))
  | None =>
      let coords := AllCoords grid in
      if len coords =? 0 then
        Some (Returned (inl {| Message := "empty grid provided" |}))
      else
        let '(width, height) := calculateGridDimensions coords in
        generated ← GenerateHeightmap width height (NoiseParams config)
                                      (Seed config);
        Some (
          heightmap ← generated;
          heightmap ← ApplyHypsometricCurve heightmap (LandRatio config);
          tiles ← HeightmapToHexTiles heightmap grid (SeaLevel config);
          Returned (inr tiles))
  end.

(** [func TerrainFromGridWithSeed(grid *hex.Grid, seed int64)
    ([]*HexTile, error)] *)
Definition TerrainFromGridWithSeed {V} (grid : Grid V) (seed : Z)
    : option (Result (TerrainError + list HexTile)) :=
  GenerateTerrain grid
    {| Seed := seed; SeaLevel := SeaLevel DefaultTerrainConfig;
       LandRatio := LandRatio DefaultTerrainConfig;
       NoiseParams := NoiseParams DefaultTerrainConfig |}.

(** [func TerrainFromGrid(grid *hex.Grid) ([]*HexTile, error)] *)
Definition TerrainFromGrid {V} (grid : Grid V)
    : option (Result (TerrainError + list HexTile)) :=
  GenerateTerrain grid DefaultTerrainConfig.

End Generator.

(** ** Properties: hypsometric shaping keeps the shape *)

From Stdlib Require Import Lqa.

Section Shaping.

Import GoInt.

Context (Pow : Q -> Q -> Q).

Lemma land_ratio_guard (L : Q) :
  (Qleb L 0 || Qleb 1 L = true <-> (L <= 0 \/ 1 <= L)%Q)
  /\ (Qleb L 0 || Qleb 1 L = false <-> (0 < L < 1)%Q).
Proof.
  split.
  - rewrite orb_true_iff, !Qleb_le. reflexivity.
  - rewrite orb_false_iff. split.
    + intros [H1 H2]. split; apply Qnot_le_lt; intros H; apply Qleb_le in H;
        congruence.
    + intros [H1 H2]. split; apply not_true_is_false; intros H;
        apply Qleb_le in H; lra.
Qed.

Lemma truncate_nonneg (q : Q) :
  (0 <= q)%Q ->
  0 <= Z.quot (Qnum q) (Z.pos (Qden q))
  /\ (inject_Z (Z.quot (Qnum q) (Z.pos (Qden q))) <= q)%Q.
Proof.
  intros Hq. assert (Hn : 0 <= Qnum q) by (unfold Qle in Hq; cbn in Hq; lia).
  split; [apply Z.quot_pos; lia|].
  rewrite Z.quot_div_nonneg by lia.
  pose proof (Qfloor_le q) as Hf. destruct q as [n d]. exact Hf.
Qed.

(** The index of the threshold lies in the sorted slice. *)
Lemma threshold_index_range (n : Z) (L : Q) :
  1 <= n <= max_int -> (0 < L < 1)%Q ->
  0 <= (if n <=? float_to_int (inject_Z n * (1 - L))
        then sub n 1
        else float_to_int (inject_Z n * (1 - L))) < n.
Proof.
  intros Hn HL.
  assert (Hn0 : (0 < inject_Z n)%Q) by (change 0%Q with (inject_Z 0);
                                        rewrite <- Zlt_Qlt; lia).
  assert (Hq0 : (0 <= inject_Z n * (1 - L))%Q) by nra.
  assert (Hqn : (inject_Z n * (1 - L) < inject_Z n)%Q) by nra.
  destruct (truncate_nonneg _ Hq0) as [Ht0 Htq].
  set (t := Z.quot _ _) in *.
  assert (Htn : t < n).
  { rewrite Zlt_Qlt. eapply Qle_lt_trans; [exact Htq|exact Hqn]. }
  unfold float_to_int. fold t.
  destruct (Z.leb_spec min_int t) as [_|H]; [|unfold min_int in H; lia].
  destruct (Z.leb_spec t max_int) as [_|H]; [|lia]. cbn [andb].
  destruct (Z.leb_spec n t); lia.
Qed.

Lemma map_shape_length (T : Q) (hm : Heightmap) :
  map (@length Q) (map (map (shape_cell Pow T)) hm) = map (@length Q) hm.
Proof.
  induction hm as [|r hm IH]; [reflexivity|].
  cbn [map]. now rewrite length_map, IH.
Qed.

Lemma ApplyHypsometricCurve_returns (hm : Heightmap) (L : Q) :
  concat hm <> [] -> len (concat hm) <= max_int ->
  exists out, ApplyHypsometricCurve Pow hm L = Returned out
              /\ map (@length Q) out = map (@length Q) hm.
Proof.
  intros Hne Hlen. unfold ApplyHypsometricCurve.
  destruct (Qleb L 0 || Qleb 1 L) eqn:Hg; [eauto|].
  apply land_ratio_guard in Hg.
  assert (Hs : len (sort_Float64s (concat hm)) = len (concat hm)).
  { unfold len, sort_Float64s. f_equal. apply Permutation_length.
    apply merge_sort_Permutation. }
  rewrite Hs.
  assert (Hn : 1 <= len (concat hm) <= max_int).
  { split; [|exact Hlen]. unfold len. destruct (concat hm); [congruence|].
    cbn [length]. lia. }
  pose proof (threshold_index_range _ L Hn Hg) as Hi.
  set (i := if _ <=? _ then _ else _) in *.
  destruct (lookup_lt_is_Some_2 (sort_Float64s (concat hm)) (Z.to_nat i))
    as [T HT].
  { unfold len in Hs, Hi. lia. }
  rewrite (index_lookup _ i T) by (lia || assumption).
  cbn [mbind Result_bind]. eexists. split; [reflexivity|].
  apply map_shape_length.
Qed.

(** X16. [ApplyHypsometricCurve] returns its input unchanged when the
    land ratio is not strictly between 0 and 1.  Otherwise it panics
    (index out of range) on a heightmap without a single cell, and on any
    other heightmap it returns an array of the same shape: as many rows,
    each as long as before. *)
Theorem ApplyHypsometricCurve_shape (hm : Heightmap) (L : Q) :
  ((L <= 0 \/ 1 <= L)%Q -> ApplyHypsometricCurve Pow hm L = Returned hm)
  /\ ((0 < L < 1)%Q -> concat hm = [] ->
      ApplyHypsometricCurve Pow hm L = Panicked index_out_of_range)
  /\ (concat hm <> [] -> len (concat hm) <= GoInt.max_int ->
      exists out, ApplyHypsometricCurve Pow hm L = Returned out
                  /\ map (@length Q) out = map (@length Q) hm).
Proof.
  split; [|split].
  - intros HL. apply land_ratio_guard in HL.
    unfold ApplyHypsometricCurve. now rewrite HL.
  - intros HL He. apply land_ratio_guard in HL.
    unfold ApplyHypsometricCurve. rewrite HL, He. reflexivity.
  - apply ApplyHypsometricCurve_returns.
Qed.

End Shaping.

(** ** Properties: the generator end to end *)

Section GeneratorFacts.

Import GoInt.

Context (Pow : Q -> Q -> Q) (Rng : Type) (NewSource : Z -> Rng)
        (Float64 : Rng -> Q * Rng).

Lemma Qltb_false (a b : Q) : Qltb a b = false <-> (b <= a)%Q.
Proof.
  split.
  - intros H. apply Qnot_lt_le. intros Hlt. apply Qltb_lt in Hlt. congruence.
  - intros H. apply not_true_is_false. intros Hlt. apply Qltb_lt in Hlt. lra.
Qed.






Context {V : Type}.





End GeneratorFacts.

(** X19. [GenerateTerrain] reads the width and the height of the grid
    and nothing else of it: two grids of the same width and height get
    the same result, whatever their topologies and the values stored in
    their cells.  The terrain of a World grid is not wrapped. *)
Theorem GenerateTerrain_ignores_topology (Pow : Q -> Q -> Q) (Rng : Type)
    (NewSource : Z -> Rng) (Float64 : Rng -> Q * Rng) {V1 V2 : Type}
    (g1 : Grid V1) (g2 : Grid V2) (cfg : TerrainConfig) :
  Width (config g1) = Width (config g2) ->
  Height (config g1) = Height (config g2) ->
  GenerateTerrain Pow Rng NewSource Float64 g1 cfg
  = GenerateTerrain Pow Rng NewSource Float64 g2 cfg.
Proof.
  intros Hw Hh.
  assert (E : AllCoords g1 = AllCoords g2)
    by (unfold AllCoords; now rewrite Hw, Hh).
  unfold GenerateTerrain, HeightmapToHexTiles. now rewrite E.
Qed.

(** [math.Pow] at the exponents of the examples: the cube for the
    exponent 3, and a stand-in, the square, for 2.5.  The theorems hold
    for every function. *)
Definition pow_example (x y : Q) : Q :=
  if Qeq_bool y (3 # 1) then (x * x * x)%Q else (x * x)%Q.


Lemma GenerateTerrain_ignores_topology_witness :
  GenerateTerrain pow_example Z lcg_source lcg_float64
    {| config := {| Width := 3; Height := 2; Topology_ := TopologyRegion |};
       tiles := @nil (list (option unit)); coordMap := ∅ |} DefaultTerrainConfig
  = GenerateTerrain pow_example Z lcg_source lcg_float64
      {| config := {| Width := 3; Height := 2; Topology_ := TopologyWorld |};
         tiles := [[Some 7%nat]]; coordMap := fill_coordMap 3 2 |}
      DefaultTerrainConfig.
Proof.
  apply (GenerateTerrain_ignores_topology pow_example Z lcg_source lcg_float64);
    reflexivity.
Defined.

(** ** Properties: one tile against the sea level *)


(** X21. [ElevationToRealisticRange] maps a normalized elevation in
    [[-1, 1]] into the realistic range, from [ElevationMin] to
    [ElevationMax], which [IsRealistic] accepts; it keeps the sign and
    it is monotone. *)
Theorem ElevationToRealisticRange_realistic (x y : Q) :
  ((-1 <= x <= 1)%Q ->
   forall c land dist,
     IsRealistic {| Coordinates := c; Elevation := ElevationToRealisticRange x;
                    IsLand := land; DistanceToWater := dist |} = true)
  /\ ((0 <= x)%Q <-> (0 <= ElevationToRealisticRange x)%Q)
  /\ ((x <= y)%Q ->
      (ElevationToRealisticRange x <= ElevationToRealisticRange y)%Q).
Proof.
  unfold ElevationToRealisticRange, IsRealistic, ElevationMin, ElevationMax.
  cbn [Elevation]. split; [|split].
  - intros Hx c land dist. apply andb_true_iff. rewrite !Qleb_le.
    destruct (Qltb x 0) eqn:E; [apply Qltb_lt in E|apply Qltb_false in E];
      split; lra.
  - destruct (Qltb x 0) eqn:E; [apply Qltb_lt in E|apply Qltb_false in E];
      split; intros H; lra.
  - intros Hxy.
    destruct (Qltb x 0) eqn:Ex; [apply Qltb_lt in Ex|apply Qltb_false in Ex];
      (destruct (Qltb y 0) eqn:Ey;
         [apply Qltb_lt in Ey|apply Qltb_false in Ey]); lra.
Qed.

(** ** Least and greatest values *)




Section MinMax.





End MinMax.

(** ** pkg/hex: neighbours on a Region grid *)

Section RegionNeighbors.

Import GoInt.

Context {V : Type}.

Lemma Neighbors_region_loop (g : Grid V) (c : AxialCoord)
    (dirs l0 : list AxialCoord) :
  Topology_ (config g) = TopologyRegion ->
  foldl (fun acc direction =>
           neighbors ← acc;
           let neighbor := NewAxialCoord (add (cQ c) (cQ direction))
                                         (add (cR c) (cR direction)) in
           match Topology_ (config g) with
           | TopologyWorld =>
               wrapped ← WrapCoord g neighbor;
               Returned (neighbors ++ [wrapped])
           | TopologyRegion =>
               valid ← IsValid g neighbor;
               if valid : bool then Returned (neighbors ++ [neighbor])
               else Returned neighbors
           end)
        (Returned l0) dirs
  = Returned (l0 ++ List.filter (coordMap_get g) (map (step_to c) dirs)).
Proof.
  intros Ht.
  match goal with |- foldl ?F _ _ = _ => set (body := F) end.
  assert (Hbody : forall l d,
            body (Returned l) d
            = Returned (l ++ List.filter (coordMap_get g) [step_to c d])).
  { intros l d. unfold body. cbn [mbind Result_bind]. rewrite Ht.
    unfold IsValid. rewrite Ht. cbn [mbind Result_bind List.filter].
    fold (step_to c d). destruct (coordMap_get g (step_to c d));
      [reflexivity|now rewrite app_nil_r]. }
  clearbody body. revert l0.
  induction dirs as [|d dirs IH]; intros l0; cbn [foldl map].
  - cbn. now rewrite app_nil_r.
  - rewrite Hbody, IH, <- app_assoc. f_equal. f_equal.
    cbn [List.filter]. destruct (coordMap_get g (step_to c d)); reflexivity.
Qed.

Lemma step_to_exact (c d : AxialCoord) :
  bounded (2 ^ 58) c -> d ∈ hexDirections ->
  step_to c d = NewAxialCoord (cQ c + cQ d) (cR c + cR d)
  /\ bounded (2 ^ 59) (step_to c d)
  /\ hexnorm (cQ d) (cR d) = 1.
Proof.
  intros [Hq Hr] Hd. unfold step_to, add, bounded.
  assert (H58 : 2 ^ 58 = 288230376151711744) by reflexivity.
  assert (H59 : 2 ^ 59 = 576460752303423488) by reflexivity.
  rewrite H58 in *. rewrite H59.
  assert (Hin : forall z, Z.abs z <= 576460752303423488 -> in_int z)
    by (unfold in_int, min_int, max_int; lia).
  unfold hexDirections in Hd.
  repeat (apply elem_of_cons in Hd as [->|Hd];
          [cbn [cQ cR]; rewrite !wrap64_id by (apply Hin; lia);
           cbn [cQ cR]; repeat split; (reflexivity || lia)|]).
  inversion Hd.
Qed.

(** The displacements of hex norm 1 are the six directions. *)
Lemma hexnorm_one (x y : Z) :
  hexnorm x y = 1 -> NewAxialCoord x y ∈ hexDirections.
Proof.
  unfold hexnorm, hexDirections. intros H.
  assert (Hx : x = -1 \/ x = 0 \/ x = 1) by lia.
  assert (Hy : y = -1 \/ y = 0 \/ y = 1) by lia.
  destruct Hx as [->|[->| ->]], Hy as [->|[->| ->]]; cbn in H; try lia;
    repeat (first [left; reflexivity|right]).
Qed.

Lemma directions_NoDup (c : AxialCoord) :
  bounded (2 ^ 58) c -> NoDup (map (step_to c) hexDirections).
Proof.
  intros Hc. apply (NoDup_fmap_2_strong _ hexDirections).
  - intros d1 d2 H1 H2 E.
    destruct (step_to_exact c d1 Hc H1) as (E1 & _).
    destruct (step_to_exact c d2 Hc H2) as (E2 & _).
    rewrite E1, E2 in E. injection E as Eq Er.
    destruct d1, d2. cbn in *. f_equal; lia.
  - apply (bool_decide_unpack _). vm_compute. exact I.
Qed.

(** X23. On a Region grid built by [NewGrid], for a coordinate [c]
    whose fields are at most [2^58] in absolute value, [Neighbors c]
    lists, each once, exactly the valid coordinates at hex distance 1
    from [c]: at most six of them. *)
Theorem Neighbors_region_adjacent (cfg : GridConfig) (g : Grid V)
    (c : AxialCoord) :
  NewGrid cfg = Returned g ->
  Topology_ cfg = TopologyRegion ->
  bounded (2 ^ 58) c ->
  exists l, Neighbors c g = Returned l
            /\ (length l <= 6)%nat /\ NoDup l
            /\ forall n, bounded (2 ^ 58) n ->
                 (n ∈ l <-> hexDistance c n = 1
                            /\ IsValid g n = Returned true).
Proof.
  intros Hg Ht Hc.
  destruct (NewGrid_returned cfg g Hg) as (Hcfg & _). rewrite <- Hcfg in Ht.
  unfold Neighbors. rewrite (Neighbors_region_loop g c _ [] Ht). cbn [app].
  eexists. split; [reflexivity|]. split; [|split].
  - etransitivity; [apply filter_length_le|]. reflexivity.
  - apply NoDup_ListNoDup, List.NoDup_filter, NoDup_ListNoDup.
    apply directions_NoDup, Hc.
  - intros n Hn. unfold IsValid. rewrite Ht.
    rewrite list_elem_of_In, filter_In, in_map_iff. split.
    + intros ((d & <- & Hd) & Hv). apply list_elem_of_In in Hd.
      destruct (step_to_exact c d Hc Hd) as (E & Hb & H1).
      split; [|now rewrite Hv].
      rewrite hexDistance_exact by auto using bounded_weaken.
      rewrite E. cbn [cQ cR]. rewrite <- hexnorm_opp, <- H1. f_equal; lia.
    + intros [Hd Hv]. injection Hv as Hv. split; [|exact Hv].
      rewrite hexDistance_exact in Hd by auto using bounded_weaken.
      rewrite <- hexnorm_opp in Hd.
      apply hexnorm_one in Hd.
      exists (NewAxialCoord (- (cQ c - cQ n)) (- (cR c - cR n))).
      split; [|now apply list_elem_of_In].
      destruct (step_to_exact c _ Hc Hd) as (E & _). rewrite E.
      destruct n as [nq nr]. cbn [cQ cR]. f_equal; lia.
Qed.

End RegionNeighbors.

Lemma Neighbors_region_adjacent_witness :
  let g := {| config := {| Width := 5; Height := 3; Topology_ := TopologyRegion |};
              tiles := replicate 3 (replicate 5 (@None unit));
              coordMap := fill_coordMap 5 3 |} in
  exists l, Neighbors (NewAxialCoord 4 (-1)) g = Returned l
            /\ (length l <= 6)%nat /\ NoDup l
            /\ forall n, bounded (2 ^ 58) n ->
                 (n ∈ l <-> hexDistance (NewAxialCoord 4 (-1)) n = 1
                            /\ IsValid g n = Returned true).
Proof.
  apply (Neighbors_region_adjacent
           {| Width := 5; Height := 3; Topology_ := TopologyRegion |}).
  - reflexivity.
  - reflexivity.
  - split; cbn; lia.
Defined.

(** ** pkg/hex: the edge of a Region grid *)

Section Edge.

Import GoInt.

Context {V : Type}.

(** The cells with a full ring of cells around them. *)
Definition interior (cfg : GridConfig) (c : AxialCoord) : bool :=
  let '(col, row) := ToOffset c in
  (1 <=? col) && (col <=? Width cfg - 2)
  && (1 <=? row) && (row <=? Height cfg - 2).

Lemma ToOffset_exact (c : AxialCoord) :
  bounded (2 ^ 59) c ->
  ToOffset c = (cQ c, cR c + (cQ c + cQ c mod 2) / 2).
Proof.
  intros [Hq Hr]. unfold ToOffset, add, quo, and. rewrite land_1_mod.
  assert (H59 : 2 ^ 59 = 576460752303423488) by reflexivity.
  rewrite H59 in *.
  assert (Hin : forall z, Z.abs z <= 2305843009213693952 -> in_int z)
    by (unfold in_int, min_int, max_int; lia).
  pose proof (Z.mod_pos_bound (cQ c) 2 ltac:(lia)) as Hm.
  rewrite (wrap64_id (cQ c + _)) by (apply Hin; lia).
  assert (E : Z.quot (cQ c + cQ c mod 2) 2 = (cQ c + cQ c mod 2) / 2).
  { assert (Hk : cQ c + cQ c mod 2 = (cQ c + cQ c mod 2) / 2 * 2).
    { pose proof (Z.div_mod (cQ c) 2 ltac:(lia)).
      pose proof (Z.div_mod (cQ c + cQ c mod 2) 2 ltac:(lia)).
      pose proof (Z.mod_pos_bound (cQ c + cQ c mod 2) 2 ltac:(lia)).
      assert ((cQ c + cQ c mod 2) mod 2 = 0).
      { rewrite Z.add_mod, Z.mod_mod by lia.
        destruct (Z.eq_dec (cQ c mod 2) 0) as [->|]; [reflexivity|].
        replace (cQ c mod 2) with 1 by lia. reflexivity. }
      lia. }
    rewrite Hk at 1. apply Z.quot_mul. lia. }
  rewrite E.
  assert (Hd : Z.abs ((cQ c + cQ c mod 2) / 2) <= 576460752303423488).
  { pose proof (Z.div_mod (cQ c + cQ c mod 2) 2 ltac:(lia)).
    pose proof (Z.mod_pos_bound (cQ c + cQ c mod 2) 2 ltac:(lia)). lia. }
  rewrite (wrap64_id (_ / 2)) by (apply Hin; lia).
  rewrite wrap64_id by (apply Hin; lia). reflexivity.
Qed.

Lemma filter_all {A} (f : A -> bool) (l : list A) :
  Forall (fun x => f x = true) l -> List.filter f l = l.
Proof.
  induction 1 as [|x l Hx _ IH]; [reflexivity|].
  cbn. now rewrite Hx, IH.
Qed.

Lemma filter_drops {A} (f : A -> bool) (l : list A) (x : A) :
  x ∈ l -> f x = false -> (length (List.filter f l) < length l)%nat.
Proof.
  intros Hx Hf. induction l as [|y l IH]; [inversion Hx|].
  cbn. apply elem_of_cons in Hx as [<-|Hx].
  - rewrite Hf. pose proof (filter_length_le f l). lia.
  - specialize (IH Hx). destruct (f y); cbn; lia.
Qed.

(** The offset of the neighbour of [c] in direction [d]: one column
    along, and a row that depends on the parity of the column. *)
Lemma neighbor_offset (c d : AxialCoord) :
  bounded (2 ^ 58) c -> d ∈ hexDirections ->
  ToOffset (step_to c d)
  = (fst (ToOffset c) + cQ d,
     snd (ToOffset c) + cR d
     + ((cQ c + cQ d + (cQ c + cQ d) mod 2) / 2 - (cQ c + cQ c mod 2) / 2)).
Proof.
  intros Hc Hd. destruct (step_to_exact c d Hc Hd) as (E & Hb & _).
  rewrite (ToOffset_exact _ Hb), (ToOffset_exact c (bounded_weaken c Hc)).
  rewrite E. cbn [cQ cR fst snd]. f_equal. lia.
Qed.

Lemma in_bounds_neighbors (cfg : GridConfig) (c : AxialCoord) :
  bounded (2 ^ 58) c ->
  if interior cfg c
  then Forall (fun n => in_bounds cfg n = true) (map (step_to c) hexDirections)
  else exists d, d ∈ hexDirections /\ in_bounds cfg (step_to c d) = false.
Proof.
  intros Hc. unfold interior.
  pose proof (fun d => neighbor_offset c d Hc) as Hoff.
  destruct (ToOffset c) as [col row] eqn:E. cbn [fst snd] in Hoff.
  pose proof (ToOffset_exact c (bounded_weaken c Hc)) as Ec.
  rewrite E in Ec. injection Ec as Ecol Erow.
  pose proof (Z.div_mod (cQ c) 2 ltac:(lia)) as D0.
  pose proof (Z.mod_pos_bound (cQ c) 2 ltac:(lia)) as M0.
  pose proof (Z.div_mod (cQ c + cQ c mod 2) 2 ltac:(lia)) as D1.
  pose proof (Z.mod_pos_bound (cQ c + cQ c mod 2) 2 ltac:(lia)) as M1.
  pose proof (Z.div_mod (cQ c + 1) 2 ltac:(lia)) as D2.
  pose proof (Z.mod_pos_bound (cQ c + 1) 2 ltac:(lia)) as M2.
  pose proof (Z.div_mod (cQ c + 1 + (cQ c + 1) mod 2) 2 ltac:(lia)) as D3.
  pose proof (Z.mod_pos_bound (cQ c + 1 + (cQ c + 1) mod 2) 2 ltac:(lia)) as M3.
  pose proof (Z.div_mod (cQ c + -1) 2 ltac:(lia)) as D4.
  pose proof (Z.mod_pos_bound (cQ c + -1) 2 ltac:(lia)) as M4.
  pose proof (Z.div_mod (cQ c + -1 + (cQ c + -1) mod 2) 2 ltac:(lia)) as D5.
  pose proof (Z.mod_pos_bound (cQ c + -1 + (cQ c + -1) mod 2) 2 ltac:(lia)) as M5.
  destruct ((1 <=? col) && (col <=? Width cfg - 2)
            && (1 <=? row) && (row <=? Height cfg - 2)) eqn:Hi.
  - apply andb_true_iff in Hi as [Hi H4]. apply andb_true_iff in Hi as [Hi H3].
    apply andb_true_iff in Hi as [H1 H2].
    apply Forall_forall. intros n Hn.
    apply list_elem_of_In, in_map_iff in Hn as (d & <- & Hd).
    apply list_elem_of_In in Hd. unfold in_bounds. rewrite (Hoff d Hd).
    unfold hexDirections in Hd.
    repeat (apply elem_of_cons in Hd as [->|Hd];
            [cbn [cQ cR]; rewrite ?Z.add_0_r;
             repeat (apply andb_true_iff; split); lia|]).
    inversion Hd.
  - assert (Hout : col <= 0 \/ Width cfg - 1 <= col
                   \/ row <= 0 \/ Height cfg - 1 <= row).
    { destruct (Z.leb_spec 1 col), (Z.leb_spec col (Width cfg - 2)),
        (Z.leb_spec 1 row), (Z.leb_spec row (Height cfg - 2));
        cbn in Hi; try discriminate; lia. }
    assert (Hd : forall d, d ∈ hexDirections ->
                   (fst (ToOffset (step_to c d)) < 0
                    \/ Width cfg <= fst (ToOffset (step_to c d))
                    \/ snd (ToOffset (step_to c d)) < 0
                    \/ Height cfg <= snd (ToOffset (step_to c d))) ->
                   in_bounds cfg (step_to c d) = false).
    { intros d _ Hd. apply not_true_is_false. intros Hb.
      apply in_bounds_iff in Hb. lia. }
    destruct Hout as [H|[H|[H|H]]].
    + exists (NewAxialCoord (-1) 0).
      assert (Hin : NewAxialCoord (-1) 0 ∈ hexDirections)
        by (unfold hexDirections; set_unfold; tauto).
      split; [exact Hin|]. apply Hd; [exact Hin|]. rewrite (Hoff _ Hin).
      cbn [cQ cR fst snd]. lia.
    + exists (NewAxialCoord 1 0).
      assert (Hin : NewAxialCoord 1 0 ∈ hexDirections)
        by (unfold hexDirections; set_unfold; tauto).
      split; [exact Hin|]. apply Hd; [exact Hin|]. rewrite (Hoff _ Hin).
      cbn [cQ cR fst snd]. lia.
    + exists (NewAxialCoord 0 (-1)).
      assert (Hin : NewAxialCoord 0 (-1) ∈ hexDirections)
        by (unfold hexDirections; set_unfold; tauto).
      split; [exact Hin|]. apply Hd; [exact Hin|]. rewrite (Hoff _ Hin).
      cbn [cQ cR fst snd]. rewrite ?Z.add_0_r. lia.
    + exists (NewAxialCoord 0 1).
      assert (Hin : NewAxialCoord 0 1 ∈ hexDirections)
        by (unfold hexDirections; set_unfold; tauto).
      split; [exact Hin|]. apply Hd; [exact Hin|]. rewrite (Hoff _ Hin).
      cbn [cQ cR fst snd]. rewrite ?Z.add_0_r. lia.
Qed.

(** X24. On a grid built by [NewGrid], for a coordinate [c] whose
    fields are at most [2^58] in absolute value: under World topology
    [IsEdgeHex c] is false; under Region topology it is false exactly
    when the offset [(col, row)] of [c] has [1 <= col <= Width - 2] and
    [1 <= row <= Height - 2], the cells with six neighbours. *)
Theorem IsEdgeHex_border (cfg : GridConfig) (g : Grid V) (c : AxialCoord) :
  NewGrid cfg = Returned g ->
  GoInt.in_int (Width cfg) -> GoInt.in_int (Height cfg) ->
  bounded (2 ^ 58) c ->
  IsEdgeHex c g
  = Returned (match Topology_ cfg with
              | TopologyWorld => false
              | TopologyRegion => negb (interior cfg c)
              end).
Proof.
  intros Hg Hw Hh Hc.
  destruct (NewGrid_returned cfg g Hg) as (Hcfg & _).
  unfold IsEdgeHex. rewrite Hcfg.
  destruct (Topology_ cfg) eqn:Ht; [|reflexivity].
  unfold Neighbors.
  rewrite (Neighbors_region_loop g c _ []) by now rewrite Hcfg.
  cbn [app mbind Result_bind]. f_equal.
  assert (Hf : List.filter (coordMap_get g) (map (step_to c) hexDirections)
               = List.filter (in_bounds cfg) (map (step_to c) hexDirections)).
  { apply filter_ext_in. intros n Hn. apply in_map_iff in Hn as (d & <- & _).
    apply (coordMap_get_fill cfg); try assumption. apply step_to_ok. }
  rewrite Hf. pose proof (in_bounds_neighbors cfg c Hc) as Hn.
  destruct (interior cfg c).
  - rewrite filter_all by exact Hn. reflexivity.
  - destruct Hn as (d & Hd & Hb). cbn [negb]. apply Z.ltb_lt.
    pose proof (filter_drops (in_bounds cfg) (map (step_to c) hexDirections)
                  (step_to c d)) as Hlt.
    rewrite length_map in Hlt. cbn [hexDirections length] in Hlt.
    assert (step_to c d ∈ map (step_to c) hexDirections)
      by (apply list_elem_of_In, in_map, list_elem_of_In, Hd).
    specialize (Hlt H Hb). lia.
Qed.

End Edge.

Lemma IsEdgeHex_border_witness :
  IsEdgeHex (NewAxialCoord 2 0)
            {| config := {| Width := 5; Height := 3; Topology_ := TopologyRegion |};
               tiles := replicate 3 (replicate 5 (@None unit));
               coordMap := fill_coordMap 5 3 |}
  = Returned (negb (interior {| Width := 5; Height := 3;
                                Topology_ := TopologyRegion |}
                             (NewAxialCoord 2 0))).
Proof.
  apply (IsEdgeHex_border
           {| Width := 5; Height := 3; Topology_ := TopologyRegion |}).
  - reflexivity.
  - cbn; unfold GoInt.in_int, GoInt.min_int, GoInt.max_int; lia.
  - cbn; unfold GoInt.in_int, GoInt.min_int, GoInt.max_int; lia.
  - split; cbn; lia.
Defined.

(** ** pkg/hex: paths *)

(** [math.Round]: to the nearest integer, halves away from zero. *)
Definition Round (x : Q) : Q :=
  if Qltb x 0 then inject_Z (- Qfloor (- x + (1 # 2)))
  else inject_Z (Qfloor (x + (1 # 2))).

(** [func axialRound(q, r float64) AxialCoord] *)
Definition axialRound (q r : Q) : AxialCoord :=
  let s := (- q - r)%Q in
  let rq := Round q in
  let rr := Round r in
  let rs := Round s in
  let qDiff := Qabs (rq - q) in
  let rDiff := Qabs (rr - r) in
  let sDiff := Qabs (rs - s) in
  if Qltb rDiff qDiff && Qltb sDiff qDiff then
    NewAxialCoord (float_to_int (- rr - rs)) (float_to_int rr)
  else if Qltb sDiff rDiff then
    NewAxialCoord (float_to_int rq) (float_to_int (- rq - rs))
  else NewAxialCoord (float_to_int rq) (float_to_int rr).

(** [func hexPathRegion(from, to AxialCoord) []AxialCoord]: the slice of
    [distance + 1] coordinates with [from] first, [to] last and the
    rounded interpolations between. *)
Definition hexPathRegion (from to : AxialCoord) : Result (list AxialCoord) :=
  let distance := hexDistance from to in
  if distance =? 0 then Returned [from]
  else if GoInt.add distance 1 <? 0 then Panicked makeslice_len
  else if distance <? 0 then Panicked index_out_of_range
  else
    Returned
      (from
       :: map (fun i =>
                 let t := (inject_Z i / inject_Z distance)%Q in
                 let q := (inject_Z (cQ from) * (1 - t) + inject_Z (cQ to) * t)%Q in
                 let r := (inject_Z (cR from) * (1 - t) + inject_Z (cR to) * t)%Q in
                 axialRound q r)
              (range 1 distance)
       ++ [to]).

(** [for i := range path { path[i] = f(path[i]) }], where [f] may panic. *)
Definition update_each {A} (f : A -> Result A) (path : list A) : Result (list A) :=
  foldr (fun a rest => b ← f a; bs ← rest; Returned (b :: bs)) (Returned []) path.

(** [func (g *Grid) ShortestPath(from, to AxialCoord) []AxialCoord] *)
Definition ShortestPath {V} (g : Grid V) (from to : AxialCoord)
    : Result (list AxialCoord) :=
  match Topology_ (config g) with
  | TopologyRegion => hexPathRegion from to
  | TopologyWorld =>
      let '(bestTo, _) :=
        foldl (fun best dCol =>
                 foldl (fun (best : AxialCoord * Z) dRow =>
                          let '(bestTo, minDist) := best in
                          let '(toCol, toRow) := ToOffset to in
                          let wrappedCol :=
                            GoInt.add toCol (GoInt.mul dCol (Width (config g))) in
                          let wrappedRow :=
                            GoInt.add toRow (GoInt.mul dRow (Height (config g))) in
                          let wrappedTo := OffsetToAxial wrappedCol wrappedRow in
                          let dist := hexDistance from wrappedTo in
                          if dist <? minDist then (wrappedTo, dist)
                          else (bestTo, minDist))
                       best wrap_offsets)
              (to, hexDistance from to) wrap_offsets in
      path ← hexPathRegion from bestTo;
      update_each (WrapCoord g) path
  end.

Section ArgMin.

Context {A B C : Type} (f : A -> B -> C) (d : C -> Z).

(** The candidate kept by the two nested loops of [ShortestPath], with its
    distance. *)
Definition best_loop (l1 : list A) (l2 : list B) (init : C * Z) : C * Z :=
  foldl (fun best a =>
           foldl (fun (best : C * Z) b =>
                    let '(bestTo, minDist) := best in
                    if d (f a b) <? minDist then (f a b, d (f a b))
                    else (bestTo, minDist))
                 best l2)
        init l1.

Lemma best_inner (a : A) (l2 : list B) (init : C * Z) :
  snd init = d (fst init) ->
  let r := foldl (fun (best : C * Z) b =>
                    let '(bestTo, minDist) := best in
                    if d (f a b) <? minDist then (f a b, d (f a b))
                    else (bestTo, minDist)) init l2 in
  snd r = d (fst r) /\ snd r <= snd init
  /\ (forall b, b ∈ l2 -> snd r <= d (f a b))
  /\ (r = init \/ exists b, b ∈ l2 /\ fst r = f a b).
Proof.
  revert init. induction l2 as [|b l2 IH]; intros [c m] Hinit; cbn in *.
  - split; [exact Hinit|]. split; [lia|]. split; [|now left].
    intros b Hb. inversion Hb.
  - destruct (Z.ltb_spec (d (f a b)) m) as [Hlt|Hge].
    + destruct (IH (f a b, d (f a b)) eq_refl) as (I0 & I1 & I2 & I3).
      cbn in *. split; [exact I0|]. split; [lia|]. split.
      * intros b' Hb'. apply elem_of_cons in Hb' as [->|Hb']; [exact I1|now apply I2].
      * right. destruct I3 as [->|(b' & Hb' & ->)].
        -- exists b. split; [left|reflexivity].
        -- exists b'. split; [now right|reflexivity].
    + destruct (IH (c, m) Hinit) as (I0 & I1 & I2 & I3).
      cbn in *. split; [exact I0|]. split; [lia|]. split.
      * intros b' Hb'. apply elem_of_cons in Hb' as [->|Hb']; [lia|now apply I2].
      * destruct I3 as [->|(b' & Hb' & ->)]; [now left|].
        right. exists b'. split; [now right|reflexivity].
Qed.

Lemma best_loop_spec (l1 : list A) (l2 : list B) (init : C * Z) :
  snd init = d (fst init) ->
  let r := best_loop l1 l2 init in
  snd r = d (fst r) /\ snd r <= snd init
  /\ (forall a b, a ∈ l1 -> b ∈ l2 -> snd r <= d (f a b))
  /\ (r = init \/ exists a b, a ∈ l1 /\ b ∈ l2 /\ fst r = f a b).
Proof.
  unfold best_loop. revert init.
  induction l1 as [|a l1 IH]; intros init Hinit; cbn.
  - split; [exact Hinit|]. split; [lia|]. split; [|now left].
    intros a b Ha. inversion Ha.
  - destruct (best_inner a l2 init Hinit) as (I0 & I1 & I2 & I3). cbn zeta in *.
    set (m := foldl _ init l2) in *.
    destruct (IH m I0) as (H0 & H1 & H2 & H3).
    split; [exact H0|]. split; [lia|]. split.
    + intros a' b Ha' Hb. apply elem_of_cons in Ha' as [->|Ha'].
      * specialize (I2 b Hb). lia.
      * now apply H2.
    + destruct H3 as [->|(a' & b & Ha' & Hb & ->)].
      * destruct I3 as [->|(b & Hb & ->)]; [now left|].
        right. exists a, b. split; [left|]. split; [exact Hb|reflexivity].
      * right. exists a', b. split; [now right|]. split; [exact Hb|reflexivity].
Qed.

End ArgMin.

Section Paths.

Context {V : Type}.
Implicit Types (g : Grid V) (c : AxialCoord).

Lemma bounded_ok (c : AxialCoord) : bounded (2 ^ 59) c -> coord_ok c.
Proof.
  intros [Hq Hr]. unfold coord_ok, GoInt.in_int, GoInt.min_int, GoInt.max_int.
  assert (2 ^ 59 < 2 ^ 63) by (apply Z.pow_lt_mono_r; lia). lia.
Qed.

Lemma axialRound_ok (q r : Q) : coord_ok (axialRound q r).
Proof.
  unfold axialRound. cbv zeta.
  repeat match goal with |- context [if ?b then _ else _] => destruct b end;
    split; apply float_to_int_range.
Qed.

Lemma hexPathRegion_returns (from to : AxialCoord) :
  bounded (2 ^ 59) from -> bounded (2 ^ 59) to ->
  exists p, hexPathRegion from to = Returned p
    /\ len p = hexDistance from to + 1
    /\ head p = Some from /\ last p = Some to
    /\ Forall coord_ok p.
Proof.
  intros Hf Ht. unfold hexPathRegion. cbv zeta.
  pose proof (bounded_ok _ Hf) as Hfo. pose proof (bounded_ok _ Ht) as Hto.
  assert (Hd : 0 <= hexDistance from to <= 2305843009213693952
               /\ (hexDistance from to = 0 -> from = to)).
  { rewrite (hexDistance_exact from to Hf Ht).
    pose proof (hexnorm_nonneg (cQ from - cQ to) (cR from - cR to)) as Hn.
    split.
    - split; [exact Hn|]. unfold hexnorm. destruct Hf as [F1 F2], Ht as [T1 T2].
      assert (H59 : 2 ^ 59 = 576460752303423488) by reflexivity.
      rewrite H59 in *. lia.
    - intros H0. apply hexnorm_zero in H0 as [Hq Hr].
      destruct from, to; cbn in *. f_equal; lia. }
  revert Hd. generalize (hexDistance from to). intros d [Hd Hz].
  destruct (Z.eqb_spec d 0) as [H0|H0].
  - exists [from]. split; [reflexivity|]. subst d.
    split; [reflexivity|]. split; [reflexivity|].
    split; [cbn; f_equal; now apply Hz|].
    constructor; [exact Hfo|constructor].
  - assert (Hadd : GoInt.add d 1 = d + 1).
    { apply GoInt.wrap64_id. unfold GoInt.in_int, GoInt.min_int, GoInt.max_int. lia. }
    rewrite Hadd.
    destruct (Z.ltb_spec (d + 1) 0); [lia|].
    destruct (Z.ltb_spec d 0); [lia|].
    eexists. split; [reflexivity|]. split; [|split; [reflexivity|split]].
    + unfold len, range. cbn [length]. rewrite length_app, length_map, length_seqZ.
      cbn [length]. lia.
    + rewrite app_comm_cons. apply last_snoc.
    + constructor; [exact Hfo|]. apply Forall_app. split.
      * apply Forall_map, Forall_forall. intros i _. apply axialRound_ok.
      * constructor; [exact Hto|constructor].
Qed.

(** X25: in Region topology, for coordinates with |q|,|r| <= 2^59,
    ShortestPath returns without a panic a path of DistanceTo + 1
    coordinates that starts at [from] and ends at [to]. *)
Theorem ShortestPath_region (g : Grid V) (from to : AxialCoord) :
  Topology_ (config g) = TopologyRegion ->
  bounded (2 ^ 59) from -> bounded (2 ^ 59) to ->
  exists p, ShortestPath g from to = Returned p
    /\ len p = DistanceTo from to g + 1
    /\ head p = Some from /\ last p = Some to.
Proof.
  intros Ht Hf Hto. unfold ShortestPath, DistanceTo. rewrite Ht.
  destruct (hexPathRegion_returns from to Hf Hto) as (p & Hp & Hl & Hh & Hla & _).
  exists p. repeat split; assumption.
Qed.

Lemma ShortestPath_world_loop (g : Grid V) (from to : AxialCoord) :
  Topology_ (config g) = TopologyWorld ->
  ShortestPath g from to
  = (let '(bestTo, _) :=
       best_loop (spec_offset_shift g to) (hexDistance from)
                 wrap_offsets wrap_offsets (to, hexDistance from to) in
     path ← hexPathRegion from bestTo;
     update_each (WrapCoord g) path).
Proof.
  intros Ht. unfold ShortestPath. rewrite Ht.
  unfold best_loop, spec_offset_shift, ToOffset. reflexivity.
Qed.

Lemma half_up_exact (x : Z) :
  Z.abs x <= 2 ^ 59 ->
  GoInt.quo (GoInt.add x (GoInt.and x 1)) 2 = (x + x mod 2) / 2
  /\ 2 * Z.abs ((x + x mod 2) / 2) <= Z.abs x + 1.
Proof.
  intros Hx. unfold GoInt.add, GoInt.quo, GoInt.and. rewrite GoInt.land_1_mod.
  assert (H59 : 2 ^ 59 = 576460752303423488) by reflexivity.
  rewrite H59 in *.
  assert (Hin : forall z, Z.abs z <= 2305843009213693952 -> GoInt.in_int z)
    by (unfold GoInt.in_int, GoInt.min_int, GoInt.max_int; lia).
  pose proof (Z.mod_pos_bound x 2 ltac:(lia)) as Hm.
  rewrite (GoInt.wrap64_id (x + _)) by (apply Hin; lia).
  assert (Hk : x + x mod 2 = (x + x mod 2) / 2 * 2).
  { pose proof (Z.div_mod (x + x mod 2) 2 ltac:(lia)).
    assert ((x + x mod 2) mod 2 = 0).
    { rewrite Z.add_mod, Z.mod_mod by lia.
      destruct (Z.eq_dec (x mod 2) 0) as [->|]; [reflexivity|].
      replace (x mod 2) with 1 by lia. reflexivity. }
    lia. }
  assert (E : Z.quot (x + x mod 2) 2 = (x + x mod 2) / 2).
  { rewrite Hk at 1. apply Z.quot_mul. lia. }
  rewrite E.
  set (half := (x + x mod 2) / 2) in *. clearbody half.
  set (m := x mod 2) in *. clearbody m.
  split; [|lia]. apply GoInt.wrap64_id, Hin. lia.
Qed.

(** A copy of [to] moved by whole grid sizes in offset space is the same
    cell after wrapping, and stays far from the ends of [int]. *)
Lemma offset_shift_exact (g : Grid V) (to : AxialCoord) (dc dr : Z) :
  0 < Width (config g) <= 2 ^ 56 -> 0 < Height (config g) <= 2 ^ 56 ->
  bounded (2 ^ 56) to -> -1 <= dc <= 1 -> -1 <= dr <= 1 ->
  bounded (2 ^ 59) (spec_offset_shift g to dc dr)
  /\ wrapped_of g (spec_offset_shift g to dc dr) = wrapped_of g to.
Proof.
  intros Hw Hh [Hq Hr] Hdc Hdr.
  assert (H56 : 2 ^ 56 = 72057594037927936) by reflexivity.
  assert (H58 : 2 ^ 58 = 288230376151711744) by reflexivity.
  assert (H59 : 2 ^ 59 = 576460752303423488) by reflexivity.
  rewrite H56 in *.
  assert (Hin : forall z, Z.abs z <= 2305843009213693952 -> GoInt.in_int z)
    by (unfold GoInt.in_int, GoInt.min_int, GoInt.max_int; lia).
  assert (Hb : bounded (2 ^ 59) to) by (rewrite H59; split; lia).
  pose proof (ToOffset_exact to Hb) as Eo.
  destruct (half_up_exact (cQ to) ltac:(lia)) as [_ Hhalf].
  unfold spec_offset_shift. rewrite Eo.
  set (row := cR to + (cQ to + cQ to mod 2) / 2) in *.
  assert (Hrow : Z.abs row <= 2 * 72057594037927936)
    by (subst row; set (half := (_ + _) / 2) in *; clearbody half; lia).
  assert (Ec : GoInt.add (cQ to) (GoInt.mul dc (Width (config g)))
               = cQ to + dc * Width (config g)).
  { unfold GoInt.add, GoInt.mul.
    rewrite (GoInt.wrap64_id (dc * _)) by (apply Hin; nia).
    apply GoInt.wrap64_id, Hin. nia. }
  assert (Er : GoInt.add row (GoInt.mul dr (Height (config g)))
               = row + dr * Height (config g)).
  { unfold GoInt.add, GoInt.mul.
    rewrite (GoInt.wrap64_id (dr * _)) by (apply Hin; nia).
    apply GoInt.wrap64_id, Hin. nia. }
  rewrite Ec, Er.
  set (col' := cQ to + dc * Width (config g)).
  set (row' := row + dr * Height (config g)).
  assert (Hc' : Z.abs col' <= 2 * 72057594037927936) by (subst col'; nia).
  assert (Hr' : Z.abs row' <= 3 * 72057594037927936)
    by (subst row'; nia).
  split.
  - unfold OffsetToAxial, bounded. cbn [cQ cR].
    destruct (half_up_exact col' ltac:(lia)) as [-> Hh'].
    clearbody col' row'.
    set (half := (col' + col' mod 2) / 2) in *. clearbody half.
    unfold GoInt.sub. rewrite GoInt.wrap64_id by (apply Hin; lia).
    rewrite H59. lia.
  - unfold wrapped_of.
    rewrite ToOffset_OffsetToAxial by (apply Hin; lia).
    rewrite Eo. cbn [fst snd]. fold row. subst col' row'.
    rewrite !Z.mod_add by lia. reflexivity.
Qed.

Lemma update_each_total {A} (f : A -> Result A) (h : A -> A) (l : list A) :
  Forall (fun a => f a = Returned (h a)) l ->
  update_each f l = Returned (map h l).
Proof.
  induction 1 as [|a l Ha _ IH]; [reflexivity|].
  change (update_each f (a :: l))
    with (b ← f a; bs ← update_each f l; Returned (b :: bs)).
  rewrite Ha, IH. reflexivity.
Qed.

Lemma head_map {A B} (h : A -> B) (l : list A) (a : A) :
  head l = Some a -> head (map h l) = Some (h a).
Proof. destruct l; [discriminate|]. cbn. now intros [= ->]. Qed.

Lemma last_map {A B} (h : A -> B) (l : list A) (a : A) :
  last l = Some a -> last (map h l) = Some (h a).
Proof.
  induction l as [|x [|y l] IH]; [discriminate| |].
  - cbn. now intros [= ->].
  - intros Hl. exact (IH Hl).
Qed.

(** X26: in World topology, on a grid built by NewGrid with
    0 < Width, Height <= 2^56 and for coordinates with |q|,|r| <= 2^56,
    ShortestPath returns without a panic a path whose number of steps is the
    least hex distance from [from] to the nine copies of [to] moved by
    (dCol * Width, dRow * Height) in offset space; the path starts at the
    wrapped [from], ends at the wrapped [to], and every coordinate on it is
    valid in the grid. *)
Theorem ShortestPath_world (cfg : GridConfig) (g : Grid V) (from to : AxialCoord) :
  NewGrid cfg = Returned g ->
  Topology_ cfg = TopologyWorld ->
  0 < Width cfg <= 2 ^ 56 -> 0 < Height cfg <= 2 ^ 56 ->
  bounded (2 ^ 56) from -> bounded (2 ^ 56) to ->
  exists p, ShortestPath g from to = Returned p
    /\ (forall dCol dRow, dCol ∈ wrap_offsets -> dRow ∈ wrap_offsets ->
          len p - 1 <= hexDistance from (spec_offset_shift g to dCol dRow))
    /\ (exists dCol dRow, dCol ∈ wrap_offsets /\ dRow ∈ wrap_offsets
          /\ len p - 1 = hexDistance from (spec_offset_shift g to dCol dRow))
    /\ head p = Some (wrapped_of g from) /\ last p = Some (wrapped_of g to)
    /\ Forall (fun c => IsValid g c = Returned true) p.
Proof.
  intros Hg Ht Hw Hh Hf Hto.
  destruct (NewGrid_returned cfg g Hg) as (Hcfg & _).
  assert (Htg : Topology_ (config g) = TopologyWorld) by now rewrite Hcfg.
  assert (Hwg : 0 < Width (config g) <= 2 ^ 56) by now rewrite Hcfg.
  assert (Hhg : 0 < Height (config g) <= 2 ^ 56) by now rewrite Hcfg.
  assert (H56 : 2 ^ 56 = 72057594037927936) by reflexivity.
  assert (H59 : 2 ^ 59 = 576460752303423488) by reflexivity.
  assert (H62 : 2 ^ 62 = 4611686018427387904) by reflexivity.
  assert (Hf9 : bounded (2 ^ 59) from).
  { destruct Hf. rewrite H56 in *. rewrite H59. split; lia. }
  rewrite (ShortestPath_world_loop g from to Htg).
  destruct (best_loop_spec (spec_offset_shift g to) (hexDistance from)
              wrap_offsets wrap_offsets (to, hexDistance from to) eq_refl)
    as (B0 & _ & B2 & B3).
  cbv zeta in B0, B2, B3.
  destruct (best_loop _ _ _ _ _) as [bestTo minDist]. cbn [fst snd] in *.
  assert (Hbest : exists dCol dRow, dCol ∈ wrap_offsets /\ dRow ∈ wrap_offsets
                    /\ bestTo = spec_offset_shift g to dCol dRow).
  { destruct B3 as [[= -> _]|B3]; [|exact B3].
    exists 0, 0. split; [apply wrap_offsets_elem; lia|].
    split; [apply wrap_offsets_elem; lia|].
    unfold spec_offset_shift.
    assert (Hto9 : bounded (2 ^ 59) to).
    { destruct Hto. rewrite H56 in *. rewrite H59. split; lia. }
    pose proof (bounded_ok _ Hto9) as Hok.
    pose proof (OffsetToAxial_ToOffset to Hok) as E.
    destruct (ToOffset to) as [col row] eqn:Eo.
    assert (Hcol : GoInt.in_int col /\ GoInt.in_int row).
    { unfold ToOffset in Eo. injection Eo as <- <-.
      split; [apply Hok|apply GoInt.wrap64_range]. }
    unfold GoInt.add, GoInt.mul. rewrite !Z.mul_0_l.
    change (GoInt.wrap64 0) with 0. rewrite !Z.add_0_r.
    rewrite !GoInt.wrap64_id by apply Hcol.
    cbn [fst snd] in E. now rewrite E. }
  destruct Hbest as (dc & dr & Hdc & Hdr & Ebest).
  pose proof Hdc as Hdc'. pose proof Hdr as Hdr'.
  apply wrap_offsets_elem in Hdc', Hdr'.
  destruct (offset_shift_exact g to dc dr Hwg Hhg Hto Hdc' Hdr') as [Hb9 Hwrap].
  rewrite <- Ebest in Hb9, Hwrap.
  destruct (hexPathRegion_returns from bestTo Hf9 Hb9)
    as (p & Hp & Hl & Hhd & Hla & Hok).
  rewrite Hp. cbn.
  assert (Hmap : update_each (WrapCoord g) p = Returned (map (wrapped_of g) p)).
  { apply update_each_total. eapply Forall_impl; [exact Hok|].
    intros c Hc. cbn. apply WrapCoord_world; [exact Htg|lia|lia|exact Hc]. }
  rewrite Hmap. eexists. split; [reflexivity|].
  assert (Hlen : len (map (wrapped_of g) p) - 1 = minDist).
  { unfold len in *. rewrite length_map. lia. }
  rewrite Hlen. split; [exact B2|]. split.
  { exists dc, dr. split; [exact Hdc|]. split; [exact Hdr|].
    rewrite B0, Ebest. reflexivity. }
  split; [now apply head_map|]. split.
  { rewrite <- Hwrap. now apply last_map. }
  apply Forall_forall. intros c Hc. apply list_elem_of_In, in_map_iff in Hc.
  destruct Hc as (c0 & <- & _). unfold wrapped_of.
  pose proof (Z.mod_pos_bound (fst (ToOffset c0)) (Width (config g)) ltac:(lia)).
  pose proof (Z.mod_pos_bound (snd (ToOffset c0)) (Height (config g)) ltac:(lia)).
  rewrite Hcfg in *.
  apply (IsValid_in_grid cfg g _ _ Hg); lia.
Qed.

End Paths.

Lemma ShortestPath_region_witness :
  let g := {| config := {| Width := 10; Height := 8; Topology_ := TopologyRegion |};
              tiles := @nil (list (option unit));
              coordMap := ∅ |} in
  exists p, ShortestPath g (NewAxialCoord 0 0) (NewAxialCoord 3 2) = Returned p
    /\ len p = DistanceTo (NewAxialCoord 0 0) (NewAxialCoord 3 2) g + 1
    /\ head p = Some (NewAxialCoord 0 0) /\ last p = Some (NewAxialCoord 3 2).
Proof.
  apply ShortestPath_region.
  - reflexivity.
  - split; cbn; lia.
  - split; cbn; lia.
Defined.

Lemma ShortestPath_world_witness :
  let g := {| config := {| Width := 10; Height := 8; Topology_ := TopologyWorld |};
              tiles := replicate 8 (replicate 10 (@None unit));
              coordMap := fill_coordMap 10 8 |} in
  exists p, ShortestPath g (NewAxialCoord 0 0) (NewAxialCoord 9 0) = Returned p
    /\ (forall dCol dRow, dCol ∈ wrap_offsets -> dRow ∈ wrap_offsets ->
          len p - 1 <= hexDistance (NewAxialCoord 0 0)
                         (spec_offset_shift g (NewAxialCoord 9 0) dCol dRow))
    /\ (exists dCol dRow, dCol ∈ wrap_offsets /\ dRow ∈ wrap_offsets
          /\ len p - 1 = hexDistance (NewAxialCoord 0 0)
                           (spec_offset_shift g (NewAxialCoord 9 0) dCol dRow))
    /\ head p = Some (wrapped_of g (NewAxialCoord 0 0))
    /\ last p = Some (wrapped_of g (NewAxialCoord 9 0))
    /\ Forall (fun c => IsValid g c = Returned true) p.
Proof.
  apply (ShortestPath_world
           {| Width := 10; Height := 8; Topology_ := TopologyWorld |}).
  - reflexivity.
  - reflexivity.
  - cbn; lia.
  - cbn; lia.
  - split; cbn; lia.
  - split; cbn; lia.
Defined.
